(** * TorchSlime: scoped attributes, observers, handler containers and
      object collectives

    A shallow embedding of the parts of TorchSlime that its specification
    makes testable claims about:

    - [Handlers]   [BackwardHandler], [OptimizerContainer] and
                   [StepIterationContainer] of [handler/common.py];
    - [Launch]     [DistributedLaunch.handler_call] of [core/hooks/launch.py];
    - [Scoped]     [ScopedAttrRestore] / [ScopedAttrAssign] of [utils/bases.py];
    - [Observe]    [AttrObservable] of [utils/bases.py];
    - [Comm]       [TorchComm] object collectives of [util/__init__.py].

    Python integers are [Z]; Python's [%] on integers is floor modulo, which
    is [Z.modulo], except that a zero divisor raises.  Dictionaries are
    stdpp [gmap]s, Python sets are [gset]s, exceptions are values of a sum
    type. *)

From Stdlib Require Import ZArith Lia.
From Stdlib.Strings Require Import Byte Ascii.
From stdpp Require Import gmap strings list fin_maps.
From Equations Require Import Equations.

Local Open Scope Z_scope.
Set Warnings "-clear-no-such-hyp,-register-all".

(** Python exceptions that the modelled code can raise, by class name.
    [Exception] subclasses are caught by [except Exception]; a
    [BaseException] that is no [Exception] ([KeyboardInterrupt],
    [SystemExit]) is not. *)
Inductive pyexc :=
| ZeroDivisionError
| UnboundLocalError (var : string)
| AttributeError (msg : string)
| ValueError (msg : string)
| TypeError (msg : string)
| IndexError (msg : string)
| UnpicklingError
| KeyboardInterrupt.

Definition is_Exception (e : pyexc) : bool :=
  match e with
  | KeyboardInterrupt => false
  | _ => true
  end.

(** The result of running Python code that may raise. *)
Inductive result (A : Type) :=
| Ok (a : A)
| Raise (e : pyexc).
Arguments Ok {A} a.
Arguments Raise {A} e.

#[global] Instance result_bind : MBind result := fun A B k r =>
  match r with
  | Ok a => k a
  | Raise e => Raise e
  end.

#[global] Instance result_fmap : FMap result := fun A B f r =>
  match r with
  | Ok a => Ok (f a)
  | Raise e => Raise e
  end.

(** [a % b] on Python integers. *)
Definition py_mod (a b : Z) : result Z :=
  if decide (b = 0) then Raise ZeroDivisionError else Ok (a mod b).

(* ================================================================== *)
(** * Handlers: gradient accumulation and step iteration *)
(* ================================================================== *)

Module Handlers.

(** What a handler does to its collaborators (the autograd engine and the
    optimizer), in order. *)
Inductive event :=
| Backward (divisor : Z)      (* (loss_reduction(ctx) / divisor).backward() *)
| OptimizerStep               (* ctx.pipeline_ctx.optimizer.step() *)
| ZeroGrad.                   (* ctx.pipeline_ctx.optimizer.zero_grad() *)

(** The fields of the context that the two handlers read.  A field that
    may be the NOTHING sentinel when the handler runs is a [bool] telling
    whether [ctx_check] finds it. *)
Record Context := {
  step_total : Z;          (* ctx.step_ctx.total *)
  step_current : Z;        (* ctx.step_ctx.current *)
  step_loss : bool;        (* ctx.ctx_check(['step_ctx.loss']) *)
  grad_acc : Z;            (* ctx.pipeline_ctx.grad_acc *)
  optimizer : bool         (* ctx.ctx_check(['pipeline_ctx.optimizer']) *)
}.

(** [BackwardHandler.handle].  The [CallDebug] wrapper of the handlers only
    writes debug output and is left out. *)
Definition BackwardHandler_handle (ctx : Context) : result (list event) :=
  if step_loss ctx then
    last ← py_mod (step_total ctx) (grad_acc ctx);
    let grad_acc :=
      if decide (step_total ctx - step_current ctx - 1 >= last)
      then grad_acc ctx else last in
    Ok [Backward grad_acc]
  else Ok [].

(** [HandlerContainer.handle] of a plain container: the children in
    insertion order; the first exception ends the traversal. *)
Fixpoint container_handle (children : list (Context -> result (list event)))
    (ctx : Context) : result (list event) :=
  match children with
  | [] => Ok []
  | h :: rest =>
      ev ← h ctx;
      evs ← container_handle rest ctx;
      Ok (ev ++ evs)
  end.

(** [OptimizerContainer.handle].  [and] and [or] evaluate their right
    operand only when needed. *)
Definition OptimizerContainer_handle
    (children : list (Context -> result (list event)))
    (ctx : Context) : result (list event) :=
  ev ← container_handle children ctx;
  fire ← (if optimizer ctx then
             m ← py_mod (step_current ctx + 1) (grad_acc ctx);
             Ok (if decide (m = 0) then true
                 else bool_decide (step_current ctx + 1 = step_total ctx))
           else Ok false);
  Ok (if fire : bool then ev ++ [OptimizerStep; ZeroGrad] else ev).

(** The context of step [i] of an epoch of [total] steps with a loss and an
    optimizer configured. *)
Definition step_context (total A i : Z) : Context :=
  {| step_total := total; step_current := i; step_loss := true;
     grad_acc := A; optimizer := true |}.

(** The accumulation group of step [i]: groups are the blocks
    [kA .. kA + A - 1] cut off at [total]; this is the number of steps in
    the block that holds [i]. *)
Definition group_size (total A i : Z) : Z :=
  Z.min total ((i / A + 1) * A) - (i / A) * A.

(** ** StepIterationContainer *)

(** The attributes that the two scoped assignments of one iteration put on
    [ctx.iteration_ctx] and [ctx.step_ctx] while the children run. *)
Record StepScope (Batch : Type) := {
  iteration_current : Z;   (* ctx.iteration_ctx.current *)
  scope_batch : Batch;     (* ctx.step_ctx.batch *)
  scope_current : Z;       (* ctx.step_ctx.current *)
  scope_total : Z          (* ctx.step_ctx.total *)
}.
Arguments iteration_current {Batch} _.
Arguments scope_batch {Batch} _.
Arguments scope_current {Batch} _.
Arguments scope_total {Batch} _.

(** [itertools.cycle(loader)]: item [k] of the endless repetition of a
    loader with finitely many batches; the cycle of an empty loader yields
    nothing. *)
Definition cycle {Batch} (loader : list Batch) (k : nat) : option Batch :=
  loader !! (k mod length loader)%nat.

Section StepIteration.
Context {Batch St : Type}.

(** [super().handle(ctx)]: the children, run on whatever state [St] they
    act on, under the scoped attributes of the iteration.  The loop is
    controlled by the locals [total], [start] and [current] only. *)
Variable children : StepScope Batch -> St -> result St.

(** The [for current, batch in enumerate(cycle(loader), start=start)] loop
    from item [k] of the cycle on; the loop leaves through [break] once
    [current + 1 >= total]. *)
Equations? step_loop (loader : list Batch) (total : Z) (k : nat)
    (current : Z) (st : St) : result St
    by wf (Z.to_nat (total - current)) lt :=
  step_loop loader total k current st with cycle loader k => {
    | None := Ok st;
    | Some batch
        with children {| iteration_current := current; scope_batch := batch;
                         scope_current := current; scope_total := total |} st => {
        | Raise e := Raise e;
        | Ok st' with decide (current + 1 >= total) => {
            | left _ := Ok st';
            | right _ := step_loop loader total (S k) (current + 1) st' } } }.
Proof. lia. Qed.

(** [StepIterationContainer.handle]; [loader] is [None] when [get_loader]
    gives [None] or NOTHING.  The progress display and the gradient switch
    of [TorchGrad] around the loop do not touch the loop and are left
    out. *)
Definition StepIterationContainer_handle (loader : option (list Batch))
    (total start : Z) (st : St) : result St :=
  match loader with
  | None => Ok st          (* logger.warning('Got empty data loader.') *)
  | Some loader => step_loop loader total 0 start st
  end.

(** Running the children once per step index of a list, in order. *)
Fixpoint run_steps (loader : list Batch) (total : Z) (k : nat)
    (steps : list Z) (st : St) : result St :=
  match steps with
  | [] => Ok st
  | current :: rest =>
      match cycle loader k with
      | None => Ok st
      | Some batch =>
          st' ← children {| iteration_current := current; scope_batch := batch;
                            scope_current := current; scope_total := total |} st;
          run_steps loader total (S k) rest st'
      end
  end.

End StepIteration.

(** Children that only record the step index they are run at. *)
Definition record_step {Batch} (sc : StepScope Batch) (seen : list Z)
    : result (list Z) :=
  Ok (seen ++ [scope_current sc]).

(** ** IterationContainer and EpochIterationContainer *)

#[global] Instance event_eq_dec : EqDecision event.
Proof. solve_decision. Defined.

(** Modelled from the spec: [get_len] is not among the sources; for a
    loader whose batches are listed, "total length if determinable" is
    the number of batches. *)
Definition get_len {Batch} (loader : list Batch) : Z :=
  Z.of_nat (length loader).

(** The [for current, batch in enumerate(loader)] loop of
    [IterationContainer.handle] from step [current] on: the children run
    with [step_ctx.batch] and [step_ctx.current] assigned. *)
Fixpoint iteration_loop {Batch}
    (children : list (Batch -> Context -> result (list event)))
    (ctx : Context) (current : Z) (batches : list Batch)
    : result (list event) :=
  match batches with
  | [] => Ok []
  | batch :: rest =>
      ev ← container_handle ((fun h => h batch) <$> children)
             {| step_total := step_total ctx; step_current := current;
                step_loss := step_loss ctx; grad_acc := grad_acc ctx;
                optimizer := optimizer ctx |};
      evs ← iteration_loop children ctx (current + 1) rest;
      Ok (ev ++ evs)
  end.

(** [IterationContainer.handle]: [step_ctx.total] is assigned around the
    loop; [loader] is [None] when [get_loader] gives [None] or NOTHING. *)
Definition IterationContainer_handle {Batch}
    (children : list (Batch -> Context -> result (list event)))
    (ctx : Context) (loader : option (list Batch)) : result (list event) :=
  match loader with
  | None => Ok []          (* logger.warning('Got empty data loader.') *)
  | Some loader =>
      iteration_loop children
        {| step_total := get_len loader; step_current := step_current ctx;
           step_loss := step_loss ctx; grad_acc := grad_acc ctx;
           optimizer := optimizer ctx |}
        0 loader
  end.

(** The [for current in range(start, total)] loop of
    [EpochIterationContainer.handle]: the children run with
    [iteration_ctx.current] assigned. *)
Fixpoint epoch_loop (children : Z -> result (list event))
    (epochs : list Z) : result (list event) :=
  match epochs with
  | [] => Ok []
  | current :: rest =>
      ev ← children current;
      evs ← epoch_loop children rest;
      Ok (ev ++ evs)
  end.

(** [EpochIterationContainer.handle] with [iteration_ctx.total] set. *)
Definition EpochIterationContainer_handle (children : Z -> result (list event))
    (start total : Z) : result (list event) :=
  epoch_loop children (seqZ start (total - start)).

(** The accumulation groups of an epoch of [n] steps with factor [A]:
    [n / A] groups of [A] steps and, when [A] does not divide [n], a last
    group of [n mod A] steps; and what one group does: as many backward
    passes as it has steps, each scaled by the number of its steps, then
    one optimizer update. *)
Definition accumulation_groups (A n : nat) : list nat :=
  replicate (n / A)%nat A ++ (if decide (n mod A = 0)%nat then [] else [n mod A]%nat).
Definition group_events (g : nat) : list event :=
  replicate g (Backward (Z.of_nat g)) ++ [OptimizerStep; ZeroGrad].

(** How many optimizer updates a run made. *)
Definition updates (evs : list event) : nat :=
  length (filter (fun ev => ev = OptimizerStep) evs).

End Handlers.

(* ================================================================== *)
(** * Launch hooks: rank gating *)
(* ================================================================== *)

Module Launch.

(** The values of a handler's [exec_ranks]. *)
Inductive exec_ranks_t :=
| PASS                       (* the ellipsis [...]: always *)
| PyNone                     (* None *)
| NOTHING                    (* the NOTHING sentinel *)
| Ranks (ranks : list Z).    (* an explicit collection of ranks *)

(** [exec_ranks is ...] *)
Definition is_ellipsis (r : exec_ranks_t) : bool :=
  match r with
  | PASS => true
  | _ => false
  end.

Definition is_none_or_nothing (r : exec_ranks_t) : bool :=
  match r with
  | PyNone | NOTHING => true
  | _ => false
  end.

(** [rank in exec_ranks]: the ellipsis and None are not containers, and
    [Nothing.__contains__] takes no item. *)
Definition py_in (rank : Z) (r : exec_ranks_t) : result bool :=
  match r with
  | Ranks l => Ok (bool_decide (rank ∈ l))
  | PASS => Raise (TypeError "argument of type 'ellipsis' is not iterable")
  | PyNone => Raise (TypeError "argument of type 'NoneType' is not iterable")
  | NOTHING => Raise (TypeError "__contains__() takes 1 positional argument but 2 were given")
  end.

Section LaunchHook.
Context {St : Type}.

Record Handler := {
  get_exec_ranks : exec_ranks_t;
  handle : St -> result St         (* handler.handle(ctx) *)
}.

(** The local variables of [handler_call].  A name that is assigned
    somewhere in a function body is local in all of the body; its slot is
    empty until the assignment has run. *)
Record locals := {
  l_exec_ranks : option exec_ranks_t;
  l_rank : option Z
}.

(** Reading a local variable. *)
Definition load_fast {A} (name : string) (slot : option A) : result A :=
  match slot with
  | Some v => Ok v
  | None => Raise (UnboundLocalError name)
  end.

(** [DistributedLaunch.handler_call]; [get_rank] is
    [ctx.distributed.get_rank()]. *)
Definition DistributedLaunch_handler_call (handler : Handler)
    (get_rank : Z) (st : St) : result St :=
  let frame := {| l_exec_ranks := None; l_rank := None |} in
  (* always exec *)
  exec_ranks ← load_fast "exec_ranks" (l_exec_ranks frame);
  if is_ellipsis exec_ranks then handle handler st
  else
    (* never exec *)
    exec_ranks ← load_fast "exec_ranks" (l_exec_ranks frame);
    if is_none_or_nothing exec_ranks then Ok st
    else
      (* exec in the specific ranks *)
      let frame := {| l_exec_ranks := l_exec_ranks frame;
                      l_rank := Some get_rank |} in
      let frame := {| l_exec_ranks := Some (get_exec_ranks handler);
                      l_rank := l_rank frame |} in
      rank ← load_fast "rank" (l_rank frame);
      exec_ranks ← load_fast "exec_ranks" (l_exec_ranks frame);
      member ← py_in rank exec_ranks;
      if member : bool then handle handler st else Ok st.

(** [VanillaLaunch.handler_call]. *)
Definition VanillaLaunch_handler_call (handler : Handler) (st : St)
    : result St :=
  handle handler st.

(** The gate of the specification: "always", an explicit rank set holding
    the current rank, and nothing else. *)
Definition gate_permits (R : exec_ranks_t) (r : Z) : bool :=
  match R with
  | PASS => true
  | Ranks l => bool_decide (r ∈ l)
  | PyNone | NOTHING => false
  end.

End LaunchHook.
Arguments Handler : clear implicits.

(** A handler body that counts how often it ran. *)
Definition counting_handler (R : exec_ranks_t) : Handler nat :=
  {| get_exec_ranks := R; handle := fun n => Ok (S n) |}.

End Launch.

(* ================================================================== *)
(** * Scoped attributes *)
(* ================================================================== *)

Module Scoped.

(** Attribute values.  Values are atoms: [is] coincides with equality. *)
Inductive pyval :=
| NOTHING                 (* the NOTHING sentinel *)
| PyNone
| PyInt (z : Z)
| PyStr (s : string).

#[global] Instance pyval_eq_dec : EqDecision pyval.
Proof. solve_decision. Defined.

Definition is_nothing (v : pyval) : bool :=
  match v with
  | NOTHING => true
  | _ => false
  end.

(** The class of a target object: whether it derives [Base] (whose
    [__getattr__] answers NOTHING for a missing attribute), and what its
    [__setattr__] (or a property setter) rejects, given the instance
    [__dict__]: [Some e] raises [e], [None] stores the value. *)
Record pyclass := {
  derives_Base : bool;
  setattr_guard : gmap string pyval -> string -> pyval -> option pyexc
}.

Section Object.
Variable cls : pyclass.

(** [getattr(obj, attr)] *)
Definition getattr (d : gmap string pyval) (attr : string) : result pyval :=
  match d !! attr with
  | Some v => Ok v
  | None =>
      if derives_Base cls then Ok NOTHING        (* Base.__getattr__ *)
      else Raise (AttributeError attr)
  end.

(** [getattr(obj, attr, default)] *)
Definition getattr_default (d : gmap string pyval) (attr : string)
    (default : pyval) : pyval :=
  match getattr d attr with
  | Ok v => v
  | Raise _ => default
  end.

(** [hasattr(obj, attr)] *)
Definition hasattr (d : gmap string pyval) (attr : string) : bool :=
  match getattr d attr with
  | Ok _ => true
  | Raise _ => false
  end.

(** [setattr(obj, attr, value)] *)
Definition setattr (d : gmap string pyval) (attr : string) (value : pyval)
    : result (gmap string pyval) :=
  match setattr_guard cls d attr value with
  | Some e => Raise e
  | None => Ok (<[attr:=value]> d)
  end.
End Object.

(** A class with plain attribute storage, and one that derives [Base]. *)
Definition object_class : pyclass :=
  {| derives_Base := false; setattr_guard := fun _ _ _ => None |}.
Definition Base_class : pyclass :=
  {| derives_Base := true; setattr_guard := fun _ _ _ => None |}.

(** The class decorator [ReadonlyAttr(attrs, nothing_allowed, empty_allowed)]
    of [utils/decorators.py], which wraps [__setattr__]. *)
Definition ReadonlyAttr (attrs : list string)
    (nothing_allowed empty_allowed : bool) (cls : pyclass) : pyclass :=
  {| derives_Base := derives_Base cls;
     setattr_guard := fun d name value =>
       if bool_decide (name ∉ attrs) then setattr_guard cls d name value
       else
         let hasattr__ := hasattr cls d name in
         let attr__ := getattr_default cls d name PyNone in
         if (negb hasattr__ && empty_allowed)
            || (is_nothing attr__ && nothing_allowed)
         then setattr_guard cls d name value
         else Some (AttributeError (name +:+ " is readonly attribute")) |}.

(** What the scope guards write to the logger. *)
Inductive log_entry :=
| AssignFailed (attr : string) (e : pyexc)    (* 'Assigning scoped attribute failed...' *)
| RestoreFailed (attr : string) (e : pyexc).  (* 'Restoring scoped attribute failed...' *)

(** The target object's [__dict__] and the logger's output. *)
Record world := {
  dict : gmap string pyval;
  log : list log_entry
}.

(** A block of statements run on the target: [None] when it completes,
    [Some e] when it raises [e]. *)
Definition block := world -> option pyexc * world.

Definition seq_block (b1 b2 : block) : block := fun w =>
  match b1 w with
  | (None, w1) => b2 w1
  | (Some e, w1) => (Some e, w1)
  end.

(** [d[k] = v] on a Python dict, which keeps insertion order. *)
Fixpoint dict_setitem (k : string) (v : pyval) (d : list (string * pyval))
    : list (string * pyval) :=
  match d with
  | [] => [(k, v)]
  | (k', v') :: rest =>
      if decide (k = k') then (k, v) :: rest
      else (k', v') :: dict_setitem k v rest
  end.

(** [with guard: body]: [__exit__] runs whether or not the body raised, and
    not at all when [__enter__] raised.  [__exit__] of the scope guards
    returns None, so the exception of the body, if any, goes on; an
    exception raised by [__exit__] itself replaces it. *)
Definition with_ {G} (enter : world -> result G * world)
    (exit : G -> world -> option pyexc * world) (body : block) : block :=
  fun w =>
    match enter w with
    | (Raise e, w1) => (Some e, w1)
    | (Ok guard, w1) =>
        let '(outcome, w2) := body w1 in
        match exit guard w2 with
        | (Some e', w3) => (Some e', w3)
        | (None, w3) => (outcome, w3)
        end
    end.

Section Guards.
Variable cls : pyclass.

(** What [__enter__] saves for an attribute: [getattr(self.obj, attr,
    NOTHING)]. *)
Definition saved (w : world) (attr : string) : pyval :=
  getattr_default cls (dict w) attr NOTHING.

(** [ScopedAttrRestore.__enter__]: the guard's [prev_value_dict]. *)
Definition ScopedAttrRestore_enter (attrs : list string) (w : world)
    : list (string * pyval) :=
  foldl (fun prev_value_dict attr =>
           dict_setitem attr (saved w attr) prev_value_dict)
        [] attrs.

(** The loop of [ScopedAttrRestore.__exit__]. *)
Fixpoint restore_items (items : list (string * pyval)) (w : world)
    : option pyexc * world :=
  match items with
  | [] => (None, w)
  | (attr, value) :: rest =>
      match setattr cls (dict w) attr value with
      | Ok d' => restore_items rest {| dict := d'; log := log w |}
      | Raise e =>
          if is_Exception e
          then restore_items rest
                 {| dict := dict w; log := log w ++ [RestoreFailed attr e] |}
          else (Some e, w)
      end
  end.

(** [ScopedAttrRestore.__exit__] *)
Definition ScopedAttrRestore_exit (restore : bool)
    (prev_value_dict : list (string * pyval)) (w : world)
    : option pyexc * world :=
  if restore then restore_items prev_value_dict w else (None, w).

(** The loop of [ScopedAttrAssign.__enter__]. *)
Fixpoint assign_items (items : list (string * pyval)) (w : world)
    : option pyexc * world :=
  match items with
  | [] => (None, w)
  | (attr, value) :: rest =>
      match setattr cls (dict w) attr value with
      | Ok d' => assign_items rest {| dict := d'; log := log w |}
      | Raise e =>
          if is_Exception e
          then assign_items rest
                 {| dict := dict w; log := log w ++ [AssignFailed attr e] |}
          else (Some e, w)
      end
  end.

(** [ScopedAttrAssign.__enter__]: back up, then assign. *)
Definition ScopedAttrAssign_enter (kwargs : list (string * pyval))
    (w : world) : result (list (string * pyval)) * world :=
  let prev_value_dict := ScopedAttrRestore_enter (kwargs.*1) w in
  match assign_items kwargs w with
  | (None, w') => (Ok prev_value_dict, w')
  | (Some e, w') => (Raise e, w')
  end.

(** [with obj.restore__('a', 'b', ...): body] *)
Definition with_restore (attrs : list string) (body : block) : block :=
  with_ (fun w => (Ok (ScopedAttrRestore_enter attrs w), w))
        (ScopedAttrRestore_exit true) body.

(** [with obj.assign__(a=1, b=2, ...): body] *)
Definition with_assign (kwargs : list (string * pyval)) (body : block)
    : block :=
  with_ (ScopedAttrAssign_enter kwargs) (ScopedAttrRestore_exit true) body.

(** The target rejects values with exceptions that derive [Exception]. *)
Definition rejects_with_Exception : Prop :=
  forall d attr value e,
    setattr_guard cls d attr value = Some e -> is_Exception e = true.

(** The target takes [value] for [attr] whatever its state. *)
Definition accepts (attr : string) (value : pyval) : Prop :=
  forall d, setattr_guard cls d attr value = None.

End Guards.

(** A body that does nothing, one that raises, and one that stores a value
    in the instance [__dict__]. *)
Definition pass : block := fun w => (None, w).
Definition raise (e : pyexc) : block := fun w => (Some e, w).
Definition store (attr : string) (value : pyval) : block := fun w =>
  (None, {| dict := <[attr:=value]> (dict w); log := log w |}).

(** ** The other methods of [Base] *)

(** [object.__delattr__] on the instance [__dict__]. *)
Definition object_delattr (d : gmap string pyval) (name : string)
    : result (gmap string pyval) :=
  match d !! name with
  | Some _ => Ok (delete name d)
  | None => Raise (AttributeError name)
  end.

(** [Base.__delattr__]: safe delete. *)
Definition Base_delattr (d : gmap string pyval) (name : string)
    : result (gmap string pyval) :=
  match object_delattr d name with
  | Ok d' => Ok d'
  | Raise (AttributeError _) => Ok d
  | Raise e => Raise e
  end.

(** [Base.pop__] *)
Definition Base_pop__ (cls : pyclass) (d : gmap string pyval) (name : string)
    : result (pyval * gmap string pyval) :=
  attr ← getattr cls d name;
  d' ← Base_delattr d name;
  Ok (attr, d').

(** [Base.hasattr__] *)
Definition Base_hasattr__ (d : gmap string pyval) (name : string) : bool :=
  bool_decide (is_Some (d !! name)).

(** [Base.from_dict__]: [self.__dict__ = {**self.__dict__, **_dict}]. *)
Definition Base_from_dict__ (d _dict : gmap string pyval)
    : gmap string pyval :=
  _dict ∪ d.

(** [str.split('.')] *)
Fixpoint split_dot (s : string) : list string :=
  match s with
  | EmptyString => [EmptyString]
  | String c rest =>
      if decide (c = "."%char) then EmptyString :: split_dot rest
      else match split_dot rest with
           | head :: tail => String c head :: tail
           | [] => [String c EmptyString]
           end
  end.

(** What an attribute of a [Base] object can hold when [check__] walks a
    dotted path: a plain value or another [Base] object. *)
Inductive pynode :=
| Atom (v : pyval)
| BaseNode (attrs : list (string * pynode)).

(** [self.__dict__[name]] of a [Base] object whose attributes are listed in
    insertion order. *)
Fixpoint assoc (name : string) (attrs : list (string * pynode))
    : option pynode :=
  match attrs with
  | [] => None
  | (k, v) :: rest => if decide (name = k) then Some v else assoc name rest
  end.

(** [temp[attr]]: [Base.__getitem__] is [getattr], NOTHING answers every
    subscript with itself, None, integers and strings have no string
    subscript. *)
Definition node_getitem (temp : pynode) (attr : string) : result pynode :=
  match temp with
  | BaseNode attrs => Ok (default (Atom NOTHING) (assoc attr attrs))
  | Atom NOTHING => Ok (Atom NOTHING)
  | Atom PyNone => Raise (TypeError "'NoneType' object is not subscriptable")
  | Atom (PyInt _) => Raise (TypeError "'int' object is not subscriptable")
  | Atom (PyStr _) => Raise (TypeError "string indices must be integers")
  end.

(** The loop of [Base.check__]: the answer and what [process_exc__]
    logged; a subscript raises [TypeError] only, which [except Exception]
    catches. *)
Fixpoint check_loop (temp : pynode) (attrs : list string)
    : bool * list pyexc :=
  match attrs with
  | [] => (true, [])
  | attr :: rest =>
      match node_getitem temp attr with
      | Ok (Atom NOTHING) => (false, [])
      | Ok temp' => check_loop temp' rest
      | Raise e => (false, [e])
      end
  end.

(** [Base.check__] *)
Definition Base_check__ (self : pynode) (item : string) : bool * list pyexc :=
  check_loop self (split_dot item).

End Scoped.

(* ================================================================== *)
(** * Attribute observers *)
(* ================================================================== *)

Module Observe.
Import Scoped.

(** An observer: [id(observer)] and the attribute names that
    [observe_inspect__] finds among its flagged [<attr>_observe__]
    methods. *)
Record AttrObserver := {
  observer_id : positive;
  observe_inspect__ : gset string
}.

(** A call [func(new_value, old_value)] of an observer's callback. *)
Record notification := {
  n_observer : positive;
  n_name : string;
  n_new : pyval;
  n_old : pyval
}.

#[global] Instance notification_eq_dec : EqDecision notification.
Proof. solve_decision. Defined.

(** An [AttrObservable] after [__init__]: the two private dictionaries, the
    other instance attributes, and the callback calls made so far.  The
    lists of [__observe] hold the observers, here by their id. *)
Record AttrObservable := {
  observe : gmap string (list positive);        (* __observe *)
  observe_attrs : gmap positive (gset string);  (* __observe_attrs *)
  attrs : gmap string pyval;
  calls : list notification
}.

Definition init : AttrObservable :=
  {| observe := ∅; observe_attrs := ∅; attrs := ∅; calls := [] |}.

(** [notify__]: the callback is called; callbacks return normally. *)
Definition notify__ (o : positive) (name : string) (new_value old_value : pyval)
    (s : AttrObservable) : AttrObservable :=
  {| observe := observe s; observe_attrs := observe_attrs s; attrs := attrs s;
     calls := calls s ++ [{| n_observer := o; n_name := name;
                             n_new := new_value; n_old := old_value |}] |}.

(** [attach_attr__] *)
Definition attach_attr__ (o : positive) (name : string) (init : bool)
    (s : AttrObservable) : AttrObservable :=
  let observe_attrs0 :=
    match observe_attrs s !! o with
    | None => <[o:=∅]> (observe_attrs s)
    | Some _ => observe_attrs s
    end in
  let observe0 :=
    match observe s !! name with
    | None => <[name:=[]]> (observe s)
    | Some _ => observe s
    end in
  let s' :=
    {| observe := alter (fun observers => observers ++ [o]) name observe0;
       observe_attrs := alter (fun names => names ∪ {[name]}) o observe_attrs0;
       attrs := attrs s; calls := calls s |} in
  if init then notify__ o name (default NOTHING (attrs s' !! name)) NOTHING s'
  else s'.

(** [attach__]; the set of new names is walked in the order of [elements]. *)
Definition attach__ (observer : AttrObserver) (init : bool)
    (s : AttrObservable) : AttrObservable :=
  let names := observe_inspect__ observer in
  let names :=
    match observe_attrs s !! observer_id observer with
    | Some known => names ∖ known
    | None => names
    end in
  foldl (fun s name => attach_attr__ (observer_id observer) name init s)
        s (elements names).

(** [list.remove(x)]: the first occurrence goes. *)
Fixpoint list_remove (x : positive) (l : list positive) : list positive :=
  match l with
  | [] => []
  | y :: rest => if decide (x = y) then rest else y :: list_remove x rest
  end.

(** [detach_attr__] *)
Definition detach_attr__ (o : positive) (name : string)
    (s : AttrObservable) : AttrObservable :=
  let observe_attrs' :=
    match observe_attrs s !! o with
    | Some names =>
        let names := names ∖ {[name]} in
        if decide (size names < 1)%nat then delete o (observe_attrs s)
        else <[o:=names]> (observe_attrs s)
    | None => observe_attrs s
    end in
  let observe' :=
    match observe s !! name with
    | Some observers =>
        let observers := list_remove o observers in
        if decide (length observers < 1)%nat then delete name (observe s)
        else <[name:=observers]> (observe s)
    | None => observe s
    end in
  {| observe := observe'; observe_attrs := observe_attrs';
     attrs := attrs s; calls := calls s |}.

(** [detach__] *)
Definition detach__ (observer : AttrObserver) (s : AttrObservable)
    : AttrObservable :=
  match observe_attrs s !! observer_id observer with
  | None => s
  | Some names =>
      foldl (fun s name => detach_attr__ (observer_id observer) name s)
            s (elements names)
  end.

(** [AttrObservable.__setattr__] *)
Definition setattr (name : string) (value : pyval) (s : AttrObservable)
    : AttrObservable :=
  match observe s !! name with
  | None =>
      {| observe := observe s; observe_attrs := observe_attrs s;
         attrs := <[name:=value]> (attrs s); calls := calls s |}
  | Some observers =>
      let old_value := default NOTHING (attrs s !! name) in
      let s' := {| observe := observe s; observe_attrs := observe_attrs s;
                   attrs := <[name:=value]> (attrs s); calls := calls s |} in
      if decide (value ≠ old_value)
      then foldl (fun s observer => notify__ observer name value old_value s)
                 s' observers
      else s'
  end.

(** A history of calls on one observable. *)
Inductive op :=
| Attach (observer : AttrObserver) (init : bool)
| Detach (observer : AttrObserver)
| SetAttr (name : string) (value : pyval).

Definition step (s : AttrObservable) (o : op) : AttrObservable :=
  match o with
  | Attach observer init => attach__ observer init s
  | Detach observer => detach__ observer s
  | SetAttr name value => setattr name value s
  end.

Definition run (ops : list op) (s : AttrObservable) : AttrObservable :=
  foldl step s ops.

(** A run of attribute assignments. *)
Definition setattrs (sets : list (string * pyval)) (s : AttrObservable)
    : AttrObservable :=
  foldl (fun s nv => setattr nv.1 nv.2 s) s sets.

(** The callback calls that went to observer [o]. *)
Definition calls_of (o : positive) (s : AttrObservable) : list notification :=
  filter (fun n => n_observer n = o) (calls s).

(** The observers that [__observe] lists for [name], and the names that
    [__observe_attrs] holds for [o]; a missing key lists nothing. *)
Definition observers_of (s : AttrObservable) (name : string) : list positive :=
  default [] (observe s !! name).
Definition names_of (s : AttrObservable) (o : positive) : gset string :=
  default ∅ (observe_attrs s !! o).

(** How often [o] is subscribed to [name]. *)
Definition subscriptions (o : positive) (name : string) (s : AttrObservable)
    : nat :=
  length (filter (fun o' => o' = o) (observers_of s name)).

(** The two dictionaries agree and no list names an observer twice. *)
Definition consistent (s : AttrObservable) : Prop :=
  forall name,
    NoDup (observers_of s name)
    /\ forall o, o ∈ observers_of s name <-> name ∈ names_of s o.

(** ** Inspecting an observer *)

(** A name without a suffix, when it ends with the suffix. *)
Fixpoint strip_suffix (suffix name : string) : option string :=
  if decide (name = suffix) then Some EmptyString
  else match name with
       | EmptyString => None
       | String c rest => String c <$> strip_suffix suffix rest
       end.

Definition OBSERVE_FUNC_SUFFIX : string := "_observe__".
Definition newline : string := String "010"%char EmptyString.
Fixpoint last_char (name : string) : option ascii :=
  match name with
  | EmptyString => None
  | String c EmptyString => Some c
  | String _ rest => last_char rest
  end.
Definition ends_with_newline (name : string) : bool :=
  bool_decide (last_char name = Some "010"%char).

(** [OBSERVE_FUNC_SUFFIX_PATTERN], the suffix followed by [$], on a name:
    [None] when [search] finds nothing, else the name that [sub] leaves.
    [$] matches at the end of the name and also before a newline that ends
    the name; the suffix holds no newline, so there is one match at most. *)
Definition OBSERVE_FUNC_SUFFIX_PATTERN (name : string) : option string :=
  match strip_suffix OBSERVE_FUNC_SUFFIX name with
  | Some attr => Some attr
  | None =>
      (fun attr => attr +:+ newline)
      <$> strip_suffix (OBSERVE_FUNC_SUFFIX +:+ newline) name
  end.

(** [AttrObserver.observe_inspect__] on what [dir(self)] lists: each name
    with the truth value of the [attr_observe__] flag of the attribute
    (NOTHING, which is false, when it has none). *)
Definition AttrObserver_observe_inspect__ (dir : list (string * bool))
    : gset string :=
  list_to_set
    (omap (fun entry : string * bool =>
             match OBSERVE_FUNC_SUFFIX_PATTERN entry.1 with
             | Some attr => if entry.2 then Some attr else None
             | None => None
             end) dir).

(** The callback that [notify__] looks up for an attribute:
    [getattr(observer, name + suffix)]. *)
Definition notify_callback (dir : list (string * bool)) (name : string)
    : result string :=
  if bool_decide ((name +:+ OBSERVE_FUNC_SUFFIX) ∈ dir.*1)
  then Ok (name +:+ OBSERVE_FUNC_SUFFIX)
  else Raise (AttributeError (name +:+ OBSERVE_FUNC_SUFFIX)).

End Observe.

(* ================================================================== *)
(** * Object collectives *)
(* ================================================================== *)

Module Comm.

Local Open Scope nat_scope.

(** An entry of the list that [_transfer_objects] fills. *)
Inductive slot (Obj : Type) :=
| NOTHING
| Got (o : Obj).
Arguments NOTHING {Obj}.
Arguments Got {Obj} o.

(** What [gather_object] returns. *)
Inductive gathered (Obj : Type) :=
| RetNone                              (* a bare [return] *)
| RetList (objects : list (slot Obj)).
Arguments RetNone {Obj}.
Arguments RetList {Obj} objects.

(** The collectives of [torch.distributed] that a rank calls, in order. *)
Inductive collective :=
| AllGather
| Gather (dst : nat).

(** The transport ([torch.distributed], not part of TorchSlime), on the
    default group: every rank calls the collective with its own
    contribution, [contributions] lists them in rank order.
    [dist.all_gather] fills the output list of every rank with all
    contributions; [dist.gather] fills the gather list of rank [dst]
    only. *)
Definition dist_all_gather {A} (contributions : list A) : list A :=
  contributions.
Definition dist_gather {A} (dst rank : nat) (contributions : list A)
    : option (list A) :=
  if decide (rank = dst) then Some contributions else None.

(** [Tensor.resize_(n)] on a 1-D tensor: the first elements stay, new
    elements are whatever the allocator left there ([junk]). *)
Definition resize_ (junk : nat -> byte) (tensor : list byte) (n : nat)
    : list byte :=
  take n tensor ++ (junk <$> seq (length tensor) (n - length tensor)).

(** [max(object_size_list)] *)
Definition py_max (l : list nat) : result nat :=
  match l with
  | [] => Raise (ValueError "max() arg is an empty sequence")
  | x :: rest => Ok (foldl Nat.max x rest)
  end.

Section TorchComm.
Context {Obj : Type}.
(** [self._pickler] and [self._unpickler] *)
Variable pickle : Obj -> list byte.
Variable unpickle : list byte -> result Obj.

(** [_object_to_tensor] *)
Definition _object_to_tensor (obj : Obj) : list byte * nat :=
  let byte_tensor := pickle obj in
  (byte_tensor, length byte_tensor).

(** [_tensor_to_object] *)
Definition _tensor_to_object (tensor : list byte) (tensor_size : nat)
    : result Obj :=
  unpickle (take tensor_size tensor).

(** The loop of [_transfer_objects], from index [i] on. *)
Fixpoint transfer_loop (i : nat) (output_tensors : list (list byte))
    (object_size_list : list nat) (object_list : list (slot Obj))
    : result (list (slot Obj)) :=
  match output_tensors with
  | [] => Ok object_list
  | tensor :: rest =>
      match object_size_list !! i with
      | None => Raise (TypeError "list index out of range")
      | Some size =>
          obj ← _tensor_to_object tensor size;
          if decide (i < length object_list)
          then transfer_loop (S i) rest object_size_list
                             (<[i:=Got obj]> object_list)
          else Raise (TypeError "list assignment index out of range")
      end
  end.

(** [_transfer_objects] *)
Definition _transfer_objects (output_tensors : list (list byte))
    (object_size_list : list nat) (group_size : nat)
    : result (list (slot Obj)) :=
  transfer_loop 0 output_tensors object_size_list
                (replicate group_size NOTHING).

(** The group: rank [r] submits [objs !! r]; [junk r] is what rank [r]'s
    allocator leaves in fresh memory. *)
Variable junk : nat -> nat -> byte.
Variable objs : list Obj.

(** [_all_gather_size]: every rank contributes its [local_size]. *)
Definition _all_gather_size : list nat :=
  dist_all_gather ((fun obj => snd (_object_to_tensor obj)) <$> objs).

(** The tensor that rank [r] hands to the second collective: its own
    [object_tensor], resized to the largest size. *)
Definition resized_tensor (max_object_size : nat) (r : nat) (obj : Obj)
    : list byte :=
  resize_ (junk r) (fst (_object_to_tensor obj)) max_object_size.

(** [all_gather_object] as run by [rank]: after the two collectives every
    rank holds the same sizes and the same tensors. *)
Definition all_gather_object (rank : nat) : result (list (slot Obj)) :=
  let group_size := length objs in
  let object_size_list := _all_gather_size in
  max_object_size ← py_max object_size_list;
  let output_tensors :=
    dist_all_gather (imap (resized_tensor max_object_size) objs) in
  _transfer_objects output_tensors object_size_list group_size.

(** [gather_object] as run by [rank], with the collectives it called. *)
Definition gather_object (dst rank : nat)
    : result (gathered Obj) * list collective :=
  let group_size := length objs in
  let object_size_list := _all_gather_size in
  match py_max object_size_list with
  | Raise e => (Raise e, [AllGather])
  | Ok max_object_size =>
      let output_tensors :=
        dist_gather dst rank (imap (resized_tensor max_object_size) objs) in
      ( (* return [None] if current rank is not destination rank *)
        if decide (rank ≠ dst) then Ok RetNone
        else
          match output_tensors with
          | None => Raise (TypeError "'NoneType' object is not iterable")
          | Some output_tensors =>
              RetList <$> _transfer_objects output_tensors object_size_list
                                            group_size
          end,
        [AllGather; Gather dst])
  end.

End TorchComm.

(** A concrete serialisation for examples: an object is a byte string,
    pickled as itself. *)
Definition raw_pickle (o : list byte) : list byte := o.
Definition raw_unpickle (b : list byte) : result (list byte) := Ok b.

(** ** Broadcast and scatter *)

(** [dist.broadcast(tensor, src)]: every rank's tensor becomes the tensor
    of rank [src]; a source outside the group is refused.
    [dist.scatter(tensor, scatter_list, src)]: rank [r] receives entry [r]
    of the source's list, which has to hold one entry per rank. *)
Definition dist_broadcast {A} (src : nat) (contributions : list A)
    : result A :=
  match contributions !! src with
  | Some x => Ok x
  | None => Raise (ValueError "invalid source rank")
  end.
Definition dist_scatter {A} (group_size rank : nat) (scatter_list : list A)
    : result A :=
  if decide (length scatter_list = group_size)
  then match scatter_list !! rank with
       | Some x => Ok x
       | None => Raise (ValueError "invalid rank")
       end
  else Raise (ValueError "scatter_list has the wrong number of tensors").

(** [torch.zeros(n, dtype=torch.uint8)] *)
Definition zeros (n : nat) : list byte := replicate n x00.

Section BroadcastScatter.
Context {Obj : Type}.
Variable pickle : Obj -> list byte.
Variable unpickle : list byte -> result Obj.

(** [broadcast_object] as run by [rank], in a group where rank [r] passes
    [objs !! r] as [obj]. *)
Definition broadcast_object (objs : list Obj) (src rank : nat) : result Obj :=
  let local r obj :=
    if decide (r = src) then _object_to_tensor pickle obj
    else ([], 0) in
  (* broadcast object size to all ranks *)
  local_size ← dist_broadcast src (imap (fun r obj => snd (local r obj)) objs);
  let object_tensor r obj :=
    if decide (r ≠ src) then zeros local_size else fst (local r obj) in
  (* broadcast object tensor to all ranks *)
  object_tensor ← dist_broadcast src (imap object_tensor objs);
  _tensor_to_object unpickle object_tensor (length object_tensor).

(** [zip] of the unpacked pairs, unpacked into two lists: needs at least
    one pair. *)
Definition unzip_pairs {A B} (pairs : list (A * B))
    : result (list A * list B) :=
  match pairs with
  | [] => Raise (ValueError "not enough values to unpack (expected 2, got 0)")
  | _ => Ok (pairs.*1, pairs.*2)
  end.

(** What the source rank of [scatter_object] prepares from its [objs]: the
    tensors, grown to the largest size, the sizes and the largest size;
    [junk i] is what the allocator leaves behind tensor [i]. *)
Definition scatter_source (junk : nat -> nat -> byte) (objs : list Obj)
    : result (list (list byte) * list nat * nat) :=
  '(object_tensors, local_sizes) ←
     unzip_pairs (_object_to_tensor pickle <$> objs);
  max_object_size ← py_max local_sizes;
  Ok (imap (fun i tensor => resize_ (junk i) tensor max_object_size)
           object_tensors,
      local_sizes, max_object_size).

(** [scatter_object] as run by [rank] in a group of [group_size] ranks;
    [objs] is the list that the source passes.  The other ranks take part
    in the collectives once the source has prepared its lists. *)
Definition scatter_object (junk : nat -> nat -> byte) (group_size : nat)
    (objs : list Obj) (src rank : nat) : result Obj :=
  '(object_tensors, local_sizes, max_object_size) ← scatter_source junk objs;
  max_object_size ←
    dist_broadcast src
      ((fun r => if decide (r = src) then max_object_size else 0)
         <$> seq 0 group_size);
  local_size ← dist_scatter group_size rank local_sizes;
  (* the receive buffer [zeros(max_object_size)] is filled by the scatter *)
  object_tensor ← dist_scatter group_size rank object_tensors;
  _tensor_to_object unpickle object_tensor local_size.

End BroadcastScatter.

End Comm.

(* ================================================================== *)
(** * Bidirectional lists *)
(* ================================================================== *)

Module BiList.

(** A [BiList] with the [BiListItem]s that it or other lists hold.  Items
    and lists are named by their identity.  [parent] holds the
    [__parent] of the items that have a list as parent; an item without a
    key has NOTHING.  [warnings] lists the items for which [set_parent__]
    logged the duplicate-parent warning. *)
Record state := {
  items : list positive;               (* self.__list *)
  parent : gmap positive positive;
  warnings : list positive
}.

(** [list[i]] for an integer [i]: a negative index counts from the end, an
    index outside the list raises. *)
Definition py_index (len : nat) (i : Z) : result nat :=
  let j := if decide (i < 0) then i + Z.of_nat len else i in
  if decide (0 <= j < Z.of_nat len) then Ok (Z.to_nat j)
  else Raise (IndexError "list index out of range").

(** A bound of a slice (and the index of [list.insert]): a negative bound
    counts from the end, and the bound is cut to the list. *)
Definition clamp (len : nat) (i : Z) : nat :=
  if decide (i < 0) then Z.to_nat (Z.max 0 (i + Z.of_nat len))
  else Z.to_nat (Z.min i (Z.of_nat len)).

(** [slice(start, stop).indices(len)] for a slice without step. *)
Definition slice_bounds (len : nat) (start stop : option Z) : nat * nat :=
  let a := from_option (clamp len) 0%nat start in
  let b := from_option (clamp len) len stop in
  (a, Nat.max a b).

Section BiListOps.
(** The identity of the list itself. *)
Variable self : positive.

(** [BiListItem.set_parent__] *)
Definition set_parent__ (new_parent item : positive) (st : state) : state :=
  let prev_parent := parent st !! item in
  {| items := items st;
     parent := <[item:=new_parent]> (parent st);
     warnings :=
       match prev_parent with
       | Some prev => if decide (new_parent ≠ prev) then warnings st ++ [item]
                      else warnings st
       | None => warnings st
       end |}.

(** [BiListItem.del_parent__] *)
Definition del_parent__ (item : positive) (st : state) : state :=
  {| items := items st; parent := delete item (parent st);
     warnings := warnings st |}.

(** [for item in replaced: item.del_parent__()] and
    [for item in value: item.set_parent__(self)]. *)
Definition del_parents (replaced : list positive) (st : state) : state :=
  foldl (fun st item => del_parent__ item st) st replaced.
Definition set_parents (value : list positive) (st : state) : state :=
  foldl (fun st item => set_parent__ self item st) st value.

Definition set_items (l : list positive) (st : state) : state :=
  {| items := l; parent := parent st; warnings := warnings st |}.

(** [BiList.__setitem__] with an integer key. *)
Definition setitem_index (key : Z) (value : positive) (st : state)
    : option pyexc * state :=
  match py_index (length (items st)) key with
  | Raise e => (Some e, st)
  | Ok j =>
      match items st !! j with
      | None => (Some (IndexError "list index out of range"), st)
      | Some replaced =>
          let st := del_parent__ replaced st in
          let st := set_parent__ self value st in
          (None, set_items (<[j:=value]> (items st)) st)
      end
  end.

(** [BiList.__setitem__] with a slice key. *)
Definition setitem_slice (start stop : option Z) (value : list positive)
    (st : state) : option pyexc * state :=
  let '(a, b) := slice_bounds (length (items st)) start stop in
  let st := del_parents (take (b - a) (drop a (items st))) st in
  let st := set_parents value st in
  (None, set_items (take a (items st) ++ value ++ drop b (items st)) st).

(** [BiList.__delitem__] with an integer key. *)
Definition delitem_index (key : Z) (st : state) : option pyexc * state :=
  match py_index (length (items st)) key with
  | Raise e => (Some e, st)
  | Ok j =>
      match items st !! j with
      | None => (Some (IndexError "list index out of range"), st)
      | Some removed =>
          let st := del_parent__ removed st in
          (None, set_items (delete j (items st)) st)
      end
  end.

(** [BiList.__delitem__] with a slice key. *)
Definition delitem_slice (start stop : option Z) (st : state)
    : option pyexc * state :=
  let '(a, b) := slice_bounds (length (items st)) start stop in
  let st := del_parents (take (b - a) (drop a (items st))) st in
  (None, set_items (take a (items st) ++ drop b (items st)) st).

(** [BiList.insert] *)
Definition insert (index : Z) (item : positive) (st : state) : state :=
  let st := set_parent__ self item st in
  let a := clamp (length (items st)) index in
  set_items (take a (items st) ++ item :: drop a (items st)) st.

(** [BiList.set_list__] *)
Definition set_list__ (l : list positive) (st : state) : state :=
  let st := del_parents (items st) st in
  let st := set_parents l st in
  set_items l st.

(** The parent reference of an item is this list exactly when the item is
    in the list, and the list holds no item twice. *)
Definition consistent (st : state) : Prop :=
  NoDup (items st)
  /\ forall x, x ∈ items st <-> parent st !! x = Some self.

(** What all the operations do to a list without repetitions: the items
    from [a] up to [b] lose their parent, the items of [value] get this
    list as parent and take their place. *)
Definition splice (a b : nat) (value : list positive) (st : state) : state :=
  let st := del_parents (take (b - a) (drop a (items st))) st in
  let st := set_parents value st in
  set_items (take a (items st) ++ value ++ drop b (items st)) st.

End BiListOps.
End BiList.

(* ================================================================== *)
(** * Generators and composite structures *)
(* ================================================================== *)

Module Generator.

(** What a call of a [BaseGenerator] gives. *)
Inductive answer (Y : Type) :=
| Yielded (y : Y)
| ReturnedNone          (* the call that meets StopIteration falls through *)
| ReturnedNOTHING
| RaisedAPIMisused.
Arguments Yielded {Y} y.
Arguments ReturnedNone {Y}.
Arguments ReturnedNOTHING {Y}.
Arguments RaisedAPIMisused {Y}.

Section BaseGenerator.
Context {G V Y : Type}.
(** The wrapped generator: [gen.send(value)] in state [g] yields a value
    and goes on in a new state, or raises StopIteration ([None]). *)
Variable gen_send : V -> G -> option (Y * G).

Record BaseGenerator := {
  gen : G;
  exit_allowed : bool;
  exit : bool
}.

(** [call__] with [partial(self.gen.send, value)] as caller, that is
    [send]. *)
Definition send (value : V) (self : BaseGenerator)
    : answer Y * BaseGenerator :=
  if exit self && negb (exit_allowed self) then (RaisedAPIMisused, self)
  else if exit self then (ReturnedNOTHING, self)
  else match gen_send value (gen self) with
       | Some (y, g') =>
           (Yielded y, {| gen := g'; exit_allowed := exit_allowed self;
                          exit := exit self |})
       | None =>
           (ReturnedNone, {| gen := gen self; exit_allowed := exit_allowed self;
                             exit := true |})
       end.

(** A run of calls: the answers and the generator afterwards. *)
Fixpoint sends (values : list V) (self : BaseGenerator)
    : list (answer Y) * BaseGenerator :=
  match values with
  | [] => ([], self)
  | value :: rest =>
      let '(a, self') := send value self in
      let '(answers, self'') := sends rest self' in
      (a :: answers, self'')
  end.

End BaseGenerator.
Arguments BaseGenerator : clear implicits.

End Generator.

Module Composite.

(** A composite structure: a node with what [composite_iterable__] lists;
    a node that lists NOTHING has no children. *)
Inductive tree (L : Type) :=
| Node (label : L) (children : list (tree L)).
Arguments Node {L} label children.

Definition label {L} (t : tree L) : L :=
  match t with Node x _ => x end.
Definition composite_iterable__ {L} (t : tree L) : list (tree L) :=
  match t with Node _ cs => cs end.

Section DFT.
Context {L St : Type}.
(** [__func], acting on whatever state it acts on. *)
Variable func : tree L -> St -> St.

(** The [while q.qsize() > 0] loop of [CompositeDFT].  The queue is a
    stack; an entry holds a node and its children iterator, [None] for
    MISSING, otherwise the children not yet taken.  [fuel] bounds the
    number of rounds. *)
Fixpoint dft_loop (fuel : nat)
    (q : list (tree L * option (list (tree L)))) (st : St) : option St :=
  match fuel with
  | O => None
  | S fuel =>
      match q with
      | [] => Some st
      | (searcher, iterator) :: q =>
          let '(iterator, st) :=
            match iterator with
            | None => (composite_iterable__ searcher, func searcher st)
            | Some iterator => (iterator, st)
            end in
          match iterator with
          | [] => dft_loop fuel q st
          | child :: iterator =>
              dft_loop fuel ((child, None) :: (searcher, Some iterator) :: q) st
          end
      end
  end.

(** [CompositeDFT] *)
Definition CompositeDFT (fuel : nat) (item : tree L) (st : St) : option St :=
  dft_loop fuel [(item, None)] st.

End DFT.

(** [CompositeDFS]: the nodes on which [__func] is true, as [_search]
    collects them. *)
Definition CompositeDFS {L} (fuel : nat) (item : tree L)
    (func : tree L -> bool) : option (list (tree L)) :=
  CompositeDFT (fun item results => if func item then results ++ [item]
                                    else results)
               fuel item [].

(** The nodes of a structure, parent before children, children in their
    order. *)
Fixpoint preorder {L} (t : tree L) : list (tree L) :=
  match t with
  | Node _ cs => t :: flat_map preorder cs
  end.

(** A bound on the rounds that the traversal of a structure takes. *)
Fixpoint rounds {L} (t : tree L) : nat :=
  match t with
  | Node _ cs => 2 + list_sum (map (fun c => S (rounds c)) cs)
  end.

End Composite.

(* ================================================================== *)
(** * Utilities: [list_take] and [IterTool] *)
(* ================================================================== *)

Module Util.

(** The [index] argument of [list_take]. *)
Inductive index :=
| IndexNone
| IndexInt (i : Z)
| IndexSeq (l : list Z)       (* a list or tuple of integers *)
| IndexOther.                 (* anything else *)

(** The [list_like] argument: a list or tuple, or a single item. *)
Inductive list_like (A : Type) :=
| Single (a : A)
| Sequence (l : list A).
Arguments Single {A} a.
Arguments Sequence {A} l.

(** What [list_take] returns; an entry [None] of a tuple is NOTHING. *)
Inductive taken (A : Type) :=
| TakenNOTHING
| TakenItem (a : A)
| TakenTuple (l : list (option A))
| TakenNone.                  (* the function falls off its end *)
Arguments TakenNOTHING {A}.
Arguments TakenItem {A} a.
Arguments TakenTuple {A} l.
Arguments TakenNone {A}.

(** [list_like[i]] *)
Definition py_getitem {A} (l : list A) (i : Z) : result A :=
  let j := if decide (i < 0) then i + Z.of_nat (length l) else i in
  if decide (0 <= j)
  then match l !! Z.to_nat j with
       | Some a => Ok a
       | None => Raise (IndexError "list index out of range")
       end
  else Raise (IndexError "list index out of range").

(** [list_like[i] if i < list_len else NOTHING] *)
Definition take_one {A} (l : list A) (i : Z) : result (option A) :=
  if decide (i < Z.of_nat (length l)) then Some <$> py_getitem l i
  else Ok None.

(** The tuple built from a generator: the first exception ends it. *)
Fixpoint take_all {A} (l : list A) (indexes : list Z)
    : result (list (option A)) :=
  match indexes with
  | [] => Ok []
  | i :: rest =>
      x ← take_one l i;
      xs ← take_all l rest;
      Ok (x :: xs)
  end.

(** [list_take] *)
Definition list_take {A} (list_like0 : list_like A) (index0 : index)
    : result (taken A) :=
  match index0 with
  | IndexNone => Ok TakenNOTHING
  | _ =>
      (* convert non-list item to list. *)
      let l := match list_like0 with
               | Single a => [a]
               | Sequence l => l
               end in
      match index0 with
      | IndexNone => Ok TakenNOTHING
      | IndexInt i =>
          x ← take_one l i;
          Ok (match x with Some a => TakenItem a | None => TakenNOTHING end)
      | IndexSeq indexes => TakenTuple <$> take_all l indexes
      | IndexOther => Ok TakenNone
      end
  end.

(** What [IterTool] can add to an item. *)
Inductive extra :=
| Progress (index total : nat)
| Time (t : Z)
| Index (index : nat)
| Total (total : nat)
| ExtraNOTHING.               (* calling NOTHING gives NOTHING *)

(** What [IterTool.__next__] returns: the item, or a tuple of the item and
    the extras. *)
Inductive yielded (A : Type) :=
| Bare (item : A)
| With (item : A) (extras : list extra).
Arguments Bare {A} item.
Arguments With {A} item extras.

Section IterTool.
Context {A : Type}.
(** What [time()] reads when the item with a given index is taken. *)
Variable now : nat -> Z.

Record IterTool := {
  _iterable : list A;
  _iterator : option (list A);   (* None before [__iter__] *)
  _index : nat;
  items : list bool              (* [progress, time, index, total] *)
}.

(** [IterTool(_iterable, progress, time, index, total)] *)
Definition IterTool_init (iterable : list A) (progress time index total : bool)
    : IterTool :=
  {| _iterable := iterable; _iterator := None; _index := 0%nat;
     items := [progress; time; index; total] |}.

(** [self.func_set], called when the index is [i]. *)
Definition func_set (self : IterTool) : list extra :=
  [Progress (_index self) (length (_iterable self)); Time (now (_index self));
   Index (_index self); Total (length (_iterable self))].

(** [IterTool.__iter__] *)
Definition IterTool_iter (self : IterTool) : IterTool :=
  {| _iterable := _iterable self; _iterator := Some (_iterable self);
     _index := 0%nat; items := items self |}.

(** [[index for index, value in enumerate(self.items) if value is True]] *)
Definition true_indexes (flags : list bool) : list Z :=
  omap (fun iv : nat * bool => if iv.2 then Some (Z.of_nat iv.1) else None)
       (imap (fun i v => (i, v)) flags).

(** [IterTool.__next__]; [Raise] of this model is StopIteration or an
    exception of [list_take]. *)
Definition IterTool_next (self : IterTool)
    : option (result (yielded A) * IterTool) :=
  match _iterator self with
  | None | Some [] => None                 (* StopIteration *)
  | Some (item :: rest) =>
      let self' := {| _iterable := _iterable self; _iterator := Some rest;
                      _index := _index self; items := items self |} in
      match list_take (Sequence (func_set self')) (IndexSeq (true_indexes (items self'))) with
      | Raise e => Some (Raise e, self')
      | Ok funcs =>
          let func_set_res :=
            match funcs with
            | TakenTuple l => default ExtraNOTHING <$> l
            | _ => []
            end in
          let self'' := {| _iterable := _iterable self; _iterator := Some rest;
                           _index := S (_index self); items := items self |} in
          Some (Ok (if decide (length func_set_res = 0)%nat then Bare item
                    else With item func_set_res), self'')
      end
  end.

(** [for x in tool]: [__iter__], then [__next__] until StopIteration; an
    exception ends the loop. *)
Fixpoint next_all (fuel : nat) (self : IterTool) : result (list (yielded A)) :=
  match fuel with
  | O => Ok []
  | S fuel =>
      match IterTool_next self with
      | None => Ok []
      | Some (Raise e, _) => Raise e
      | Some (Ok y, self') => (fun ys => y :: ys) <$> next_all fuel self'
      end
  end.
Definition iterate (self : IterTool) : result (list (yielded A)) :=
  next_all (S (length (_iterable self))) (IterTool_iter self).

(** The extras that the flags ask for, for the item with index [i]. *)
Definition extras_for (flags : list bool) (total i : nat) : list extra :=
  (if default false (flags !! 0%nat) then [Progress i total] else [])
  ++ (if default false (flags !! 1%nat) then [Time (now i)] else [])
  ++ (if default false (flags !! 2%nat) then [Index i] else [])
  ++ (if default false (flags !! 3%nat) then [Total total] else []).

End IterTool.
Arguments IterTool : clear implicits.

End Util.

(* ================================================================== *)
(** * Properties of the handlers *)
(* ================================================================== *)

Section HandlersFacts.
Import Handlers.

Lemma py_mod_nonzero (a b : Z) : b ≠ 0 -> py_mod a b = Ok (a mod b).
Proof. intros Hb. unfold py_mod. destruct (decide (b = 0)); congruence. Qed.

(** Where the divisor switches: the steps before [A * (total / A)] are in
    full groups, the steps from there on form the trailing group. *)
Lemma trailing_group_boundary (total A i : Z) :
  0 < A -> (total - i - 1 >= total mod A <-> i < A * (total / A)).
Proof.
  intros HA. pose proof (Z.div_mod total A ltac:(lia)). lia.
Qed.

Lemma group_size_full (total A i : Z) :
  0 < A -> 0 <= i < A * (total / A) -> group_size total A i = A.
Proof.
  intros HA [Hi0 Hi]. unfold group_size.
  assert (i / A < total / A) by (apply Z.div_lt_upper_bound; lia).
  pose proof (Z.mul_div_le total A HA).
  assert ((i / A + 1) * A <= total) by nia.
  rewrite Z.min_r by lia. lia.
Qed.

Lemma group_size_trailing (total A i : Z) :
  0 < A -> A * (total / A) <= i < total ->
  group_size total A i = total mod A.
Proof.
  intros HA [Hlo Hhi]. unfold group_size.
  assert (Heq : i / A = total / A).
  { apply Z.le_antisymm.
    - apply Z.div_le_mono; lia.
    - apply Z.div_le_lower_bound; lia. }
  rewrite Heq.
  pose proof (Z.div_mod total A ltac:(lia)).
  pose proof (Z.mod_pos_bound total A HA).
  rewrite Z.min_l by lia. lia.
Qed.

End HandlersFacts.

(** C3: with a loss on the context and an accumulation factor [A] other
    than zero, [BackwardHandler] scales the loss of step [i] by [A] when
    [(total - i - 1) >= last] and by [last = total mod A] otherwise; for a
    positive factor and a step of the epoch that divisor is the number of
    steps in the accumulation group of step [i], so the trailing partial
    group is scaled by its own size. *)
Theorem backward_divisor (ctx : Handlers.Context) :
  Handlers.step_loss ctx = true ->
  Handlers.grad_acc ctx ≠ 0 ->
  let total := Handlers.step_total ctx in
  let A := Handlers.grad_acc ctx in
  let i := Handlers.step_current ctx in
  let last := total mod A in
  let divisor := if decide (total - i - 1 >= last) then A else last in
  Handlers.BackwardHandler_handle ctx = Ok [Handlers.Backward divisor]
  /\ (0 < A -> 0 <= i < total -> divisor = Handlers.group_size total A i).
Proof.
  intros Hloss HA total A i last divisor. split.
  - unfold Handlers.BackwardHandler_handle. rewrite Hloss.
    rewrite py_mod_nonzero by exact HA. reflexivity.
  - intros HApos Hi. subst divisor last.
    destruct (decide (total - i - 1 >= total mod A)) as [Hge|Hlt].
    + symmetry. apply group_size_full; [exact HApos|].
      apply trailing_group_boundary in Hge; lia.
    + symmetry. apply group_size_trailing; [exact HApos|].
      rewrite trailing_group_boundary in Hlt by exact HApos. lia.
Qed.

Lemma backward_divisor_witness :
  Handlers.BackwardHandler_handle (Handlers.step_context 10 3 9)
  = Ok [Handlers.Backward 1]
  /\ (0 < 3 -> 0 <= 9 < 10 -> 1 = Handlers.group_size 10 3 9).
Proof.
  exact (backward_divisor (Handlers.step_context 10 3 9)
           eq_refl ltac:(simpl; lia)).
Defined.

(** C4, as the specification words it, fails: at step 7 of an epoch of 10
    steps with factor 3 the divisor is 3, not 1. *)
Lemma gradacc_10_3_step7_divisor :
  Handlers.BackwardHandler_handle (Handlers.step_context 10 3 7)
  = Ok [Handlers.Backward 3]
  /\ Handlers.BackwardHandler_handle (Handlers.step_context 10 3 7)
     ≠ Ok [Handlers.Backward 1].
Proof. split; [reflexivity | discriminate]. Qed.

(** C4, amended: for [total = 10] and [A = 3] the divisor is 3 at steps
    0..8 and 1 at step 9, and [OptimizerContainer] (around a
    [BackwardHandler]) steps the optimizer and resets the gradients after
    steps 2, 5, 8 and 9 and after no other step. *)
Theorem gradacc_10_3 :
  (fun i => Handlers.OptimizerContainer_handle
              [Handlers.BackwardHandler_handle] (Handlers.step_context 10 3 i))
    <$> seqZ 0 10
  = let quiet d := Ok [Handlers.Backward d] in
    let update d :=
      Ok [Handlers.Backward d; Handlers.OptimizerStep; Handlers.ZeroGrad] in
    [ quiet 3; quiet 3; update 3;     (* steps 0, 1, 2 *)
      quiet 3; quiet 3; update 3;     (* steps 3, 4, 5 *)
      quiet 3; quiet 3; update 3;     (* steps 6, 7, 8 *)
      update 1 ].                     (* step 9 *)
Proof. reflexivity. Qed.

Section StepIterationFacts.
Import Handlers.
Context {Batch St : Type} (children : StepScope Batch -> St -> result St).

Lemma seqZ_head (m n : Z) :
  0 < n -> seqZ m n = m :: seqZ (m + 1) (n - 1).
Proof.
  intros Hn. replace (m + 1) with (Z.succ m) by lia.
  replace (n - 1) with (Z.pred n) by lia. apply seqZ_cons. lia.
Qed.

(** The loop is a walk over the step indices [current, current + 1, ...]
    up to [total - 1], and over [current] alone when [total] is already
    reached. *)
Lemma step_loop_run_steps (n : nat) :
  forall loader total k current st,
    Z.to_nat (total - current - 1) = n ->
    step_loop children loader total k current st
    = run_steps children loader total k
        (seqZ current (Z.max 1 (total - current))) st.
Proof.
  induction n as [|n IH]; intros loader total k current st Hn.
  - simp step_loop.
    rewrite Z.max_l by lia. rewrite seqZ_head by lia. simpl.
    destruct (cycle loader k) as [batch|]; simpl; [|reflexivity].
    destruct (children _ st) as [st'|e]; simpl; [|reflexivity].
    destruct (decide (current + 1 >= total)); simpl; [reflexivity|lia].
  - simp step_loop.
    rewrite Z.max_r by lia. rewrite seqZ_head by lia. simpl.
    destruct (cycle loader k) as [batch|]; simpl; [|reflexivity].
    destruct (children _ st) as [st'|e]; simpl; [|reflexivity].
    destruct (decide (current + 1 >= total)); simpl; [lia|].
    rewrite (IH loader total (S k) (current + 1) st') by lia.
    f_equal. f_equal. lia.
Qed.

Lemma cycle_nonempty (loader : list Batch) (k : nat) :
  loader ≠ [] -> is_Some (cycle loader k).
Proof.
  intros Hne. unfold cycle. apply lookup_lt_is_Some.
  apply Nat.mod_upper_bound. destruct loader; simpl; [congruence|lia].
Qed.

End StepIterationFacts.

(** C5: over the endless cycle of a loader that has batches,
    [StepIterationContainer.handle] returns, having run its children at the
    step indices [start, ..., total - 1] in order (at [start] alone when
    [start + 1 >= total]): the loop leaves once [current + 1 >= total].
    With [total = 5] and [start = 3] the children run at steps 3 and 4, two
    iterations, and never at step 5. *)
Theorem step_iteration_terminates {Batch St : Type}
    (children : Handlers.StepScope Batch -> St -> result St)
    (loader : list Batch) (total start : Z) (st : St) :
  loader ≠ [] ->
  Handlers.StepIterationContainer_handle children (Some loader) total start st
  = Handlers.run_steps children loader total 0
      (seqZ start (Z.max 1 (total - start))) st
  /\ (forall k, is_Some (Handlers.cycle loader k))
  /\ Handlers.StepIterationContainer_handle Handlers.record_step
       (Some loader) 5 3 [] = Ok [3; 4].
Proof.
  intros Hne. split; [|split].
  - simpl. by apply (step_loop_run_steps children (Z.to_nat (total - start - 1))).
  - intros k. by apply cycle_nonempty.
  - simpl. rewrite (step_loop_run_steps _ _ loader 5 0%nat 3 [] eq_refl).
    change (seqZ 3 (Z.max 1 (5 - 3))) with [3; 4]. simpl.
    destruct (cycle_nonempty loader 0 Hne) as [b0 ->].
    destruct (cycle_nonempty loader 1 Hne) as [b1 ->].
    reflexivity.
Qed.

Lemma step_iteration_terminates_witness :
  Handlers.StepIterationContainer_handle Handlers.record_step
    (Some [true; false; true]) 5 3 [] = Ok [3; 4].
Proof.
  exact (proj2 (proj2 (step_iteration_terminates Handlers.record_step
                         [true; false; true] 5 3 [] ltac:(discriminate)))).
Defined.


(* ================================================================== *)
(** * Properties of the launch hook *)
(* ================================================================== *)

(** C2: [DistributedLaunch.handler_call] reads its local variable
    [exec_ranks] before the assignment [exec_ranks =
    handler.get_exec_ranks()] has run, so for every handler, whatever its
    [exec_ranks], and every rank the call raises [UnboundLocalError] and the
    handler's body does not run; the gate of the specification lets the
    "always" handler run, as [VanillaLaunch.handler_call] does. *)
Theorem handler_call_unbound_local {St : Type}
    (handler : Launch.Handler St) (rank : Z) (st : St) :
  Launch.DistributedLaunch_handler_call handler rank st
  = Raise (UnboundLocalError "exec_ranks")
  /\ Launch.DistributedLaunch_handler_call
       (Launch.counting_handler Launch.PASS) 0 0%nat
     = Raise (UnboundLocalError "exec_ranks")
  /\ Launch.gate_permits Launch.PASS 0 = true
  /\ Launch.VanillaLaunch_handler_call
       (Launch.counting_handler Launch.PASS) 0%nat = Ok 1%nat.
Proof. repeat split. Qed.

(* ================================================================== *)
(** * Properties of the scope guards *)
(* ================================================================== *)

Section DictFacts.
Import Scoped.

Lemma elem_of_keys (d : list (string * pyval)) a x : (a, x) ∈ d -> a ∈ d.*1.
Proof. intros H. apply list_elem_of_fmap. by exists (a, x). Qed.

(** [d[k] = v] keeps the keys of a dict distinct, binds [k] to [v] and
    leaves the other bindings. *)
Lemma dict_setitem_spec k v (d : list (string * pyval)) :
  NoDup d.*1 ->
  NoDup (dict_setitem k v d).*1
  /\ forall a x, (a, x) ∈ dict_setitem k v d
                 <-> (a = k /\ x = v) \/ (a ≠ k /\ (a, x) ∈ d).
Proof.
  induction d as [|[k' v'] d IH]; simpl; intros Hnd.
  - split; [apply NoDup_singleton|]. intros a x.
    rewrite list_elem_of_singleton. split.
    + intros [= -> ->]. by left.
    + intros [[-> ->]|[_ H]]; [done|]. by apply elem_of_nil in H.
  - apply NoDup_cons in Hnd as [Hk' Hnd].
    destruct (decide (k = k')) as [<-|Hne]; simpl.
    + split; [by apply NoDup_cons|]. intros a x.
      rewrite !elem_of_cons. split.
      * intros [[= -> ->]|H]; [by left|]. right. split; [|by right].
        intros ->. by apply Hk', elem_of_keys with x.
      * intros [[-> ->]|[Hak [[= -> ->]|H]]]; [by left|done|by right].
    + destruct (IH Hnd) as [IHnd IHel]. split.
      * apply NoDup_cons. split; [|done].
        intros Hin. apply list_elem_of_fmap in Hin as [[a x] [Ha Hin]].
        simpl in Ha. subst a. apply IHel in Hin as [[-> _]|[_ Hin]]; [done|].
        by apply Hk', elem_of_keys with x.
      * intros a x. rewrite !elem_of_cons, IHel. split.
        -- intros [[= -> ->]|[[-> ->]|[Hak H]]];
             [right; split; [congruence|by left] | by left
             | right; split; [done|by right]].
        -- intros [[-> ->]|[Hak [[= -> ->]|H]]];
             [right; by left | by left | right; right; auto].
Qed.

Section Enter.
Variable cls : pyclass.
Variable w : world.

Local Abbreviation saved := (Scoped.saved cls w).

Lemma enter_fold (attrs : list string) :
  forall acc : list (string * pyval),
    NoDup acc.*1 ->
    (forall a x, (a, x) ∈ acc -> x = saved a) ->
    let prev := foldl (fun prev attr => dict_setitem attr (saved attr) prev)
                      acc attrs in
    NoDup prev.*1
    /\ (forall a x, (a, x) ∈ prev -> x = saved a /\ (a ∈ attrs \/ a ∈ acc.*1))
    /\ (forall a, a ∈ attrs \/ a ∈ acc.*1 -> (a, saved a) ∈ prev).
Proof.
  induction attrs as [|attr attrs IH]; intros acc Hnd Hval; simpl.
  - split; [done|]. split.
    + intros a x H. split; [by apply Hval|]. right. by apply elem_of_keys with x.
    + intros a [H|H]; [by apply elem_of_nil in H|].
      apply list_elem_of_fmap in H as [[a' x] [-> H]]. simpl.
      by rewrite <- (Hval _ _ H).
  - destruct (dict_setitem_spec attr (saved attr) acc Hnd) as [Hnd' Hel].
    destruct (IH (dict_setitem attr (saved attr) acc) Hnd') as (H1 & H2 & H3).
    { intros a x H. apply Hel in H as [[-> ->]|[_ H]]; [done|by apply Hval]. }
    split; [done|]. split.
    + intros a x H. destruct (H2 a x H) as [Hx [Ha|Ha]].
      * split; [done|]. left. by right.
      * split; [done|].
        apply list_elem_of_fmap in Ha as [[a' x'] [-> Ha]]. simpl.
        apply Hel in Ha as [[-> _]|[_ Ha]]; [left; by left|].
        right. by apply elem_of_keys with x'.
    + intros a Ha. apply H3.
      destruct Ha as [Ha|Ha].
      * apply elem_of_cons in Ha as [->|Ha]; [|by left].
        right. apply elem_of_keys with (saved attr). apply Hel. by left.
      * destruct (decide (a = attr)) as [->|Hne].
        -- right. apply elem_of_keys with (saved attr). apply Hel. by left.
        -- right. apply list_elem_of_fmap in Ha as [[a' x'] [-> Ha]]. simpl in *.
           apply elem_of_keys with x'. apply Hel. right. done.
Qed.

(** [prev_value_dict] after [__enter__]: one entry per attribute of the
    guard, holding the attribute's value on entry, NOTHING when it has
    none. *)
Lemma ScopedAttrRestore_enter_spec (attrs : list string) :
  let prev := ScopedAttrRestore_enter cls attrs w in
  NoDup prev.*1
  /\ (forall a x, (a, x) ∈ prev -> x = saved a /\ a ∈ attrs)
  /\ (forall a, a ∈ attrs -> (a, saved a) ∈ prev).
Proof.
  destruct (enter_fold attrs [] (NoDup_nil_2)) as (H1 & H2 & H3).
  { intros a x H. by apply elem_of_nil in H. }
  split; [exact H1|]. split.
  - intros a x H. destruct (H2 a x H) as [Hx [Ha|Ha]]; [done|].
    by apply elem_of_nil in Ha.
  - intros a Ha. apply H3. by left.
Qed.

End Enter.
End DictFacts.

Section ExitFacts.
Import Scoped.
Variable cls : pyclass.
Hypothesis Hexc : rejects_with_Exception cls.

Lemma setattr_Raise_Exception d attr value e :
  setattr cls d attr value = Raise e -> is_Exception e = true.
Proof.
  unfold setattr. destruct (setattr_guard cls d attr value) eqn:Hg; [|done].
  intros [= <-]. by apply Hexc in Hg.
Qed.

(** The write-back loop never raises; it writes every saved value that the
    target takes, logs every value that the target rejects, and leaves the
    attributes that are not in [prev_value_dict] alone. *)
Lemma restore_items_spec (items : list (string * pyval)) :
  forall w, NoDup items.*1 ->
  exists d' fails,
    restore_items cls items w = (None, {| dict := d'; log := log w ++ fails |})
    /\ (forall a, a ∉ items.*1 -> d' !! a = dict w !! a)
    /\ (forall a v, (a, v) ∈ items ->
          d' !! a = Some v
          \/ (exists e, RestoreFailed a e ∈ fails /\ d' !! a = dict w !! a))
    /\ (forall a v, (a, v) ∈ items -> accepts cls a v -> d' !! a = Some v)
    /\ (forall entry, entry ∈ fails ->
          exists a e, entry = RestoreFailed a e /\ a ∈ items.*1).
Proof.
  induction items as [|[a0 v0] items IH]; intros w Hnd; simpl.
  - exists (dict w), []. rewrite app_nil_r. destruct w; simpl.
    repeat split; try done.
    + intros a v H. by apply elem_of_nil in H.
    + intros a v H. by apply elem_of_nil in H.
    + intros entry H. by apply elem_of_nil in H.
  - simpl in Hnd. apply NoDup_cons in Hnd as [Ha0 Hnd].
    destruct (setattr cls (dict w) a0 v0) as [d1|e] eqn:Hset.
    + assert (Hd1 : d1 = <[a0:=v0]> (dict w)).
      { unfold setattr in Hset.
        destruct (setattr_guard cls (dict w) a0 v0); by inversion Hset. }
      destruct (IH {| dict := d1; log := log w |} Hnd)
        as (d' & fails & Heq & Hout & Hin & Hacc & Hlog). simpl in *.
      exists d', fails. split; [exact Heq|].
      assert (Hkeep : d' !! a0 = Some v0).
      { rewrite (Hout a0 Ha0), Hd1. apply lookup_insert_eq. }
      split; [|split; [|split]].
      * intros a Ha. apply not_elem_of_cons in Ha as [Hne Ha].
        rewrite (Hout a Ha), Hd1. by apply lookup_insert_ne.
      * intros a v H. apply elem_of_cons in H as [[= -> ->]|H]; [by left|].
        destruct (Hin a v H) as [Hok|(e & He & Hsame)]; [by left|].
        right. exists e. split; [done|]. rewrite Hsame, Hd1.
        apply lookup_insert_ne. intros ->. by apply Ha0, elem_of_keys with v.
      * intros a v H Hv. apply elem_of_cons in H as [[= -> ->]|H]; [done|].
        by apply Hacc.
      * intros entry H. destruct (Hlog entry H) as (a & e & -> & Ha).
        exists a, e. split; [done|]. by right.
    + rewrite (setattr_Raise_Exception _ _ _ _ Hset).
      destruct (IH {| dict := dict w; log := log w ++ [RestoreFailed a0 e] |} Hnd)
        as (d' & fails & Heq & Hout & Hin & Hacc & Hlog). simpl in *.
      exists d', (RestoreFailed a0 e :: fails).
      split; [by rewrite Heq, <- app_assoc|].
      split; [|split; [|split]].
      * intros a Ha. apply not_elem_of_cons in Ha as [Hne Ha]. by apply Hout.
      * intros a v H. apply elem_of_cons in H as [[= -> ->]|H].
        -- right. exists e. split; [by left|]. by apply Hout.
        -- destruct (Hin a v H) as [Hok|(e' & He' & Hsame)]; [by left|].
           right. exists e'. split; [by right|done].
      * intros a v H Hv. apply elem_of_cons in H as [[= -> ->]|H].
        -- unfold setattr in Hset. by rewrite (Hv (dict w)) in Hset.
        -- by apply Hacc.
      * intros entry H. apply elem_of_cons in H as [->|H].
        -- exists a0, e. split; [done|by left].
        -- destruct (Hlog entry H) as (a & e' & -> & Ha).
           exists a, e'. split; [done|by right].
Qed.

(** The assignment loop of [ScopedAttrAssign.__enter__] never raises. *)
Lemma assign_items_no_raise (items : list (string * pyval)) :
  forall w, fst (assign_items cls items w) = None.
Proof.
  induction items as [|[a v] items IH]; intros w; simpl; [done|].
  destruct (setattr cls (dict w) a v) as [d1|e] eqn:Hset; [apply IH|].
  rewrite (setattr_Raise_Exception _ _ _ _ Hset). apply IH.
Qed.

(** Leaving a scope whose guard was entered at [w0]: whatever state [w2]
    the body left, each guarded attribute whose saved value the target
    takes has that value again, and the exit does not raise. *)
Lemma exit_restores (attrs : list string) (w0 w2 : world) :
  let prev := ScopedAttrRestore_enter cls attrs w0 in
  fst (ScopedAttrRestore_exit cls true prev w2) = None
  /\ forall a, a ∈ attrs -> accepts cls a (saved cls w0 a) ->
       dict (snd (ScopedAttrRestore_exit cls true prev w2)) !! a
       = Some (saved cls w0 a).
Proof.
  intros prev.
  destruct (ScopedAttrRestore_enter_spec cls w0 attrs) as (Hnd & _ & Hall).
  destruct (restore_items_spec prev w2 Hnd)
    as (d' & fails & Heq & _ & _ & Hacc & _).
  unfold ScopedAttrRestore_exit. fold prev. rewrite Heq. simpl.
  split; [done|]. intros a Ha Hv. apply (Hacc a _ (Hall a Ha) Hv).
Qed.

Lemma getattr_default_present d a v :
  d !! a = Some v -> getattr_default cls d a NOTHING = v.
Proof. intros H. unfold getattr_default, getattr. by rewrite H. Qed.

End ExitFacts.

Section ScopeFacts.
Import Scoped.
Variable cls : pyclass.
Hypothesis Hexc : rejects_with_Exception cls.

(** With a target that rejects by [Exception]s, [with obj.assign__(...)]
    is: assign, run the body, write the saved values back. *)
Lemma with_assign_unfold (kwargs : list (string * pyval)) (body : block)
    (w0 : world) :
  with_assign cls kwargs body w0
  = let entered := snd (ScopedAttrAssign_enter cls kwargs w0) in
    (fst (body entered),
     snd (ScopedAttrRestore_exit cls true
            (ScopedAttrRestore_enter cls (kwargs.*1) w0) (snd (body entered)))).
Proof.
  unfold with_assign, with_, ScopedAttrAssign_enter.
  pose proof (assign_items_no_raise cls Hexc kwargs w0) as Hno.
  destruct (assign_items cls kwargs w0) as [r w1]. cbn [fst] in Hno. subst r.
  cbv zeta. cbn [fst snd]. destruct (body w1) as [outcome w2]. cbn [fst snd].
  pose proof (exit_restores cls Hexc (kwargs.*1) w0 w2) as [Hnone _].
  cbv zeta in Hnone.
  destruct (ScopedAttrRestore_exit cls true _ w2) as [r w3].
  cbn [fst snd] in *. by subst r.
Qed.

Lemma with_restore_unfold (attrs : list string) (body : block) (w0 : world) :
  with_restore cls attrs body w0
  = (fst (body w0),
     snd (ScopedAttrRestore_exit cls true
            (ScopedAttrRestore_enter cls attrs w0) (snd (body w0)))).
Proof.
  unfold with_restore, with_. destruct (body w0) as [outcome w2].
  cbn [fst snd].
  pose proof (exit_restores cls Hexc attrs w0 w2) as [Hnone _].
  cbv zeta in Hnone.
  destruct (ScopedAttrRestore_exit cls true _ w2) as [r w3].
  cbn [fst snd] in *. by subst r.
Qed.

Lemma with_assign_restores (kwargs : list (string * pyval)) (body : block)
    (w0 : world) (a : string) :
  a ∈ kwargs.*1 -> accepts cls a (saved cls w0 a) ->
  dict (snd (with_assign cls kwargs body w0)) !! a = Some (saved cls w0 a).
Proof.
  intros Ha Hacc. rewrite with_assign_unfold. simpl.
  by apply (exit_restores cls Hexc).
Qed.

Lemma with_restore_restores (attrs : list string) (body : block)
    (w0 : world) (a : string) :
  a ∈ attrs -> accepts cls a (saved cls w0 a) ->
  dict (snd (with_restore cls attrs body w0)) !! a = Some (saved cls w0 a).
Proof.
  intros Ha Hacc. rewrite with_restore_unfold. simpl.
  by apply (exit_restores cls Hexc).
Qed.

End ScopeFacts.

Lemma object_class_rejects_with_Exception :
  Scoped.rejects_with_Exception Scoped.object_class.
Proof. intros d attr value e H. discriminate H. Qed.

Lemma Base_class_rejects_with_Exception :
  Scoped.rejects_with_Exception Scoped.Base_class.
Proof. intros d attr value e H. discriminate H. Qed.

Lemma ReadonlyAttr_rejects_with_Exception attrs nothing_allowed empty_allowed cls :
  Scoped.rejects_with_Exception cls ->
  Scoped.rejects_with_Exception
    (Scoped.ReadonlyAttr attrs nothing_allowed empty_allowed cls).
Proof.
  intros Hcls d attr value e. simpl.
  destruct (bool_decide (attr ∉ attrs)); [apply Hcls|].
  destruct (_ || _); [apply Hcls|]. by intros [= <-].
Qed.

Lemma object_class_accepts attr value :
  Scoped.accepts Scoped.object_class attr value.
Proof. intros d. reflexivity. Qed.

Lemma Base_class_accepts attr value :
  Scoped.accepts Scoped.Base_class attr value.
Proof. intros d. reflexivity. Qed.




(** Two overlapping scopes on [x], starting from [x = 0]: inside the inner
    scope [x = 2]; after the inner exit [x = 1]; after the outer exit
    [x = 0]. *)
Example nested_assign_lifo :
  let w0 := {| Scoped.dict := {["x" := Scoped.PyInt 0]}; Scoped.log := [] |} in
  let x w := Scoped.dict w !! "x" in
  let inner := Scoped.with_assign Scoped.Base_class [("x", Scoped.PyInt 2)]
                 Scoped.pass in
  let entered :=
    snd (Scoped.ScopedAttrAssign_enter Scoped.Base_class
           [("x", Scoped.PyInt 1)] w0) in
  x entered = Some (Scoped.PyInt 1)
  /\ x (snd (Scoped.ScopedAttrAssign_enter Scoped.Base_class
               [("x", Scoped.PyInt 2)] entered)) = Some (Scoped.PyInt 2)
  /\ x (snd (inner entered)) = Some (Scoped.PyInt 1)
  /\ x (snd (Scoped.with_assign Scoped.Base_class [("x", Scoped.PyInt 1)]
               inner w0)) = Some (Scoped.PyInt 0).
Proof. repeat split. Qed.

(** C8: when the target rejects a saved value on scope exit by raising an
    [Exception], [ScopedAttrRestore.__exit__] does not raise: the block
    ends as its body ended (normally or with the body's exception), the
    logger gets one entry per rejected attribute and nothing else, every
    attribute of the guard is either written back or logged as failed and
    left as the body left it, and every attribute whose saved value the
    target takes is written back, wherever the failures are. *)
Theorem restore_failure_suppressed (cls : Scoped.pyclass)
    (attrs : list string) (body : Scoped.block) (w0 : Scoped.world) :
  Scoped.rejects_with_Exception cls ->
  let after_body := snd (body w0) in
  let prev_value_dict := Scoped.ScopedAttrRestore_enter cls attrs w0 in
  let exit := Scoped.ScopedAttrRestore_exit cls true prev_value_dict after_body in
  fst exit = None
  /\ Scoped.with_restore cls attrs body w0 = (fst (body w0), snd exit)
  /\ exists fails,
       Scoped.log (snd exit) = Scoped.log after_body ++ fails
       /\ (forall entry, entry ∈ fails ->
             exists a e, entry = Scoped.RestoreFailed a e /\ a ∈ attrs)
       /\ (forall a, a ∈ attrs ->
             Scoped.dict (snd exit) !! a = Some (Scoped.saved cls w0 a)
             \/ (exists e, Scoped.RestoreFailed a e ∈ fails
                           /\ Scoped.dict (snd exit) !! a
                              = Scoped.dict after_body !! a))
       /\ (forall a, a ∈ attrs ->
             Scoped.accepts cls a (Scoped.saved cls w0 a) ->
             Scoped.dict (snd exit) !! a = Some (Scoped.saved cls w0 a)).
Proof.
  intros Hexc after_body prev exit.
  destruct (ScopedAttrRestore_enter_spec cls w0 attrs) as (Hnd & Hfrom & Hall).
  fold prev in Hnd, Hfrom, Hall.
  destruct (restore_items_spec cls Hexc prev after_body Hnd)
    as (d' & fails & Heq & _ & Hin & Hacc & Hlog).
  assert (Hexit : exit = (None, {| Scoped.dict := d';
                                   Scoped.log := Scoped.log after_body ++ fails |})).
  { exact Heq. }
  split; [by rewrite Hexit|].
  split; [by rewrite (with_restore_unfold cls Hexc)|].
  exists fails. rewrite Hexit. cbn [snd Scoped.log Scoped.dict].
  split; [done|]. split; [|split].
  - intros entry H. destruct (Hlog entry H) as (a & e & -> & Ha).
    exists a, e. split; [done|].
    apply list_elem_of_fmap in Ha as [[a' x] [-> Ha]]. by apply Hfrom in Ha as [_ Ha].
  - intros a Ha. apply (Hin a _ (Hall a Ha)).
  - intros a Ha Hv. apply (Hacc a _ (Hall a Ha) Hv).
Qed.

Lemma restore_failure_suppressed_witness :
  let cls := Scoped.ReadonlyAttr ["x"] true true Scoped.Base_class in
  let w0 := {| Scoped.dict := {["y" := Scoped.PyInt 0]}; Scoped.log := [] |} in
  let body := Scoped.seq_block (Scoped.store "x" (Scoped.PyInt 5))
                (Scoped.seq_block (Scoped.store "y" (Scoped.PyInt 6))
                   (Scoped.raise (ValueError "E"))) in
  Scoped.with_restore cls ["x"; "y"] body w0
  = (Some (ValueError "E"),
     {| Scoped.dict := {["x" := Scoped.PyInt 5; "y" := Scoped.PyInt 0]};
        Scoped.log :=
          [Scoped.RestoreFailed "x" (AttributeError "x is readonly attribute")] |}).
Proof.
  intros cls w0 body.
  destruct (restore_failure_suppressed cls ["x"; "y"] body w0
              (ReadonlyAttr_rejects_with_Exception _ _ _ _
                 Base_class_rejects_with_Exception)) as (_ & Hwith & _).
  rewrite Hwith. vm_compute. reflexivity.
Defined.



(* ================================================================== *)
(** * Properties of the observers *)
(* ================================================================== *)

Section ObserveFacts.
Import Scoped Observe.

Lemma observers_of_notify o name v v' s name' :
  observers_of (notify__ o name v v' s) name' = observers_of s name'.
Proof. reflexivity. Qed.

Lemma attach_attr_observers o name i s name' :
  observers_of (attach_attr__ o name i s) name'
  = if decide (name' = name) then observers_of s name ++ [o]
    else observers_of s name'.
Proof.
  assert (H : default [] (alter (fun l => l ++ [o]) name
                 (match observe s !! name with
                  | None => <[name:=[]]> (observe s)
                  | Some _ => observe s
                  end) !! name')
              = if decide (name' = name) then observers_of s name ++ [o]
                else observers_of s name').
  { unfold observers_of. destruct (decide (name' = name)) as [->|Hne].
    - rewrite lookup_alter_eq.
      destruct (observe s !! name) as [l|] eqn:Hl.
      + by rewrite Hl.
      + by rewrite lookup_insert_eq.
    - rewrite lookup_alter_ne by done.
      destruct (observe s !! name); [done|]. by rewrite lookup_insert_ne. }
  unfold attach_attr__. by destruct i.
Qed.

Lemma attach_attr_names o name i s o' :
  names_of (attach_attr__ o name i s) o'
  = if decide (o' = o) then names_of s o ∪ {[name]} else names_of s o'.
Proof.
  assert (H : default ∅ (alter (fun ns : gset string => ns ∪ {[name]}) o
                 (match observe_attrs s !! o with
                  | None => <[o:=∅]> (observe_attrs s)
                  | Some _ => observe_attrs s
                  end) !! o')
              = if decide (o' = o) then names_of s o ∪ {[name]}
                else names_of s o').
  { unfold names_of. destruct (decide (o' = o)) as [->|Hne].
    - rewrite lookup_alter_eq.
      destruct (observe_attrs s !! o) as [l|] eqn:Hl.
      + by rewrite Hl.
      + by rewrite lookup_insert_eq.
    - rewrite lookup_alter_ne by done.
      destruct (observe_attrs s !! o); [done|]. by rewrite lookup_insert_ne. }
  unfold attach_attr__. by destruct i.
Qed.

Lemma list_remove_nil_length o (l : list positive) :
  (length (list_remove o l) < 1)%nat -> list_remove o l = [].
Proof. destruct (list_remove o l); simpl; [done|lia]. Qed.

Lemma detach_attr_observers o name s name' :
  observers_of (detach_attr__ o name s) name'
  = if decide (name' = name) then list_remove o (observers_of s name)
    else observers_of s name'.
Proof.
  unfold observers_of, detach_attr__. simpl.
  destruct (observe s !! name) as [l|] eqn:Hl; simpl.
  - destruct (decide (length (list_remove o l) < 1)%nat) as [Hlen|Hlen].
    + destruct (decide (name' = name)) as [->|Hne].
      * rewrite lookup_delete_eq. simpl. by rewrite list_remove_nil_length.
      * by rewrite lookup_delete_ne.
    + destruct (decide (name' = name)) as [->|Hne].
      * by rewrite lookup_insert_eq.
      * by rewrite lookup_insert_ne.
  - destruct (decide (name' = name)) as [->|Hne]; [|done]. by rewrite Hl.
Qed.

Lemma detach_attr_names o name s o' :
  names_of (detach_attr__ o name s) o'
  = if decide (o' = o) then names_of s o ∖ {[name]} else names_of s o'.
Proof.
  unfold names_of, detach_attr__. simpl.
  destruct (observe_attrs s !! o) as [ns|] eqn:Hns; simpl.
  - destruct (decide (size (ns ∖ {[name]}) < 1)%nat) as [Hlen|Hlen].
    + destruct (decide (o' = o)) as [->|Hne].
      * rewrite lookup_delete_eq. simpl. symmetry.
        apply leibniz_equiv, size_empty_inv. lia.
      * by rewrite lookup_delete_ne.
    + destruct (decide (o' = o)) as [->|Hne].
      * by rewrite lookup_insert_eq.
      * by rewrite lookup_insert_ne.
  - destruct (decide (o' = o)) as [->|Hne]; [|done]. rewrite Hns. simpl.
    by rewrite empty_difference_L.
Qed.

Lemma list_remove_spec o (l : list positive) :
  NoDup l ->
  NoDup (list_remove o l) /\ forall x, x ∈ list_remove o l <-> x ∈ l /\ x ≠ o.
Proof.
  induction l as [|y l IH]; simpl; intros Hnd.
  - split; [done|]. intros x. split; [by intros H%elem_of_nil|by intros [H%elem_of_nil _]].
  - apply NoDup_cons in Hnd as [Hy Hnd]. destruct (IH Hnd) as [IHnd IHel].
    destruct (decide (o = y)) as [->|Hne].
    + split; [done|]. intros x. rewrite elem_of_cons. split.
      * intros Hx. split; [by right|]. by intros ->.
      * by intros [[->|Hx] Hxy].
    + split.
      * apply NoDup_cons. split; [|done]. rewrite IHel. by intros [? _].
      * intros x. rewrite !elem_of_cons, IHel. split.
        -- intros [->|[Hx Hxo]]; [split; [by left|done]|split; [by right|done]].
        -- intros [[->|Hx] Hxo]; [by left|by right].
Qed.

Lemma attach_attr_consistent o name i s :
  consistent s -> name ∉ names_of s o -> consistent (attach_attr__ o name i s).
Proof.
  intros Hs Hnew name'. rewrite attach_attr_observers.
  destruct (Hs name') as [Hnd Hel].
  destruct (decide (name' = name)) as [->|Hne].
  - split.
    + apply NoDup_app. split; [done|]. split; [|apply NoDup_singleton].
      intros x Hx ->%list_elem_of_singleton. by apply Hnew, Hel.
    + intros o'. rewrite attach_attr_names, elem_of_app, list_elem_of_singleton.
      destruct (decide (o' = o)) as [->|Hne]; [set_solver|].
      rewrite Hel. naive_solver.
  - split; [done|]. intros o'. rewrite attach_attr_names.
    destruct (decide (o' = o)) as [->|Hne']; [|apply Hel].
    rewrite Hel. set_solver.
Qed.

Lemma detach_attr_consistent o name s :
  consistent s -> consistent (detach_attr__ o name s).
Proof.
  intros Hs name'. rewrite detach_attr_observers.
  destruct (Hs name') as [Hnd Hel].
  destruct (decide (name' = name)) as [->|Hne].
  - destruct (list_remove_spec o _ Hnd) as [Hnd' Hel']. split; [done|].
    intros o'. rewrite detach_attr_names, Hel', Hel.
    destruct (decide (o' = o)) as [->|Hne]; set_solver.
  - split; [done|]. intros o'. rewrite detach_attr_names.
    destruct (decide (o' = o)) as [->|Hne']; [|apply Hel].
    rewrite Hel. set_solver.
Qed.

Lemma attach_fold o i (l : list string) :
  forall s, NoDup l -> (forall n, n ∈ l -> n ∉ names_of s o) -> consistent s ->
    let s' := foldl (fun s name => attach_attr__ o name i s) s l in
    consistent s' /\ names_of s' o = names_of s o ∪ list_to_set l.
Proof.
  induction l as [|n l IH]; intros s Hnd Hnew Hs; simpl.
  - split; [done|]. set_solver.
  - apply NoDup_cons in Hnd as [Hn Hnd].
    destruct (IH (attach_attr__ o n i s) Hnd) as [Hs' Hnames].
    + intros n' Hn'. rewrite attach_attr_names, decide_True by done.
      specialize (Hnew n' ltac:(by right)). set_solver.
    + apply attach_attr_consistent; [done|]. apply Hnew. by left.
    + split; [done|]. rewrite Hnames, attach_attr_names, decide_True by done.
      set_solver.
Qed.

(** [attach__] keeps the dictionaries consistent and leaves the observer
    registered for what it was registered for and for what it inspects. *)
Lemma attach_consistent observer i s :
  consistent s ->
  consistent (attach__ observer i s)
  /\ names_of (attach__ observer i s) (observer_id observer)
     = names_of s (observer_id observer) ∪ observe_inspect__ observer.
Proof.
  intros Hs. unfold attach__.
  set (o := observer_id observer).
  assert (Hnames : match observe_attrs s !! o with
                   | Some known => observe_inspect__ observer ∖ known
                   | None => observe_inspect__ observer
                   end = observe_inspect__ observer ∖ names_of s o).
  { unfold names_of. destruct (observe_attrs s !! o); simpl; [done|].
    by rewrite difference_empty_L. }
  rewrite Hnames.
  destruct (attach_fold o i (elements (observe_inspect__ observer ∖ names_of s o)) s)
    as [Hs' Heq]; [apply NoDup_elements| |done|].
  { intros n Hn%elem_of_elements. set_solver. }
  split; [done|]. rewrite Heq, list_to_set_elements_L.
  apply leibniz_equiv. intros x. rewrite !elem_of_union, elem_of_difference.
  destruct (decide (x ∈ names_of s o)); naive_solver.
Qed.

Lemma detach_fold o (l : list string) :
  forall s, consistent s ->
    let s' := foldl (fun s name => detach_attr__ o name s) s l in
    consistent s' /\ names_of s' o = names_of s o ∖ list_to_set l.
Proof.
  induction l as [|n l IH]; intros s Hs; simpl.
  - split; [done|]. set_solver.
  - destruct (IH (detach_attr__ o n s)) as [Hs' Hnames];
      [by apply detach_attr_consistent|].
    split; [done|]. rewrite Hnames, detach_attr_names, decide_True by done.
    set_solver.
Qed.

(** [detach__] keeps the dictionaries consistent and leaves the observer
    registered for nothing. *)
Lemma detach_consistent observer s :
  consistent s ->
  consistent (detach__ observer s)
  /\ names_of (detach__ observer s) (observer_id observer) = ∅.
Proof.
  intros Hs. unfold detach__.
  destruct (observe_attrs s !! observer_id observer) as [names|] eqn:Hn.
  - destruct (detach_fold (observer_id observer) (elements names) s Hs)
      as [Hs' Heq].
    split; [done|]. rewrite Heq, list_to_set_elements_L.
    unfold names_of. rewrite Hn. simpl. set_solver.
  - split; [done|]. unfold names_of. by rewrite Hn.
Qed.

Lemma notify_fold name v old (l : list positive) :
  forall s,
    let s' := foldl (fun s o => notify__ o name v old s) s l in
    observe s' = observe s /\ observe_attrs s' = observe_attrs s
    /\ calls s' = calls s
                  ++ ((fun o => {| n_observer := o; n_name := name;
                                   n_new := v; n_old := old |}) <$> l).
Proof.
  induction l as [|o l IH]; intros s; simpl.
  - by rewrite app_nil_r.
  - destruct (IH (notify__ o name v old s)) as (H1 & H2 & H3).
    split; [done|]. split; [done|]. rewrite H3. simpl. by rewrite <- app_assoc.
Qed.

(** [__setattr__] changes neither dictionary, and calls the observers of
    the attribute, in the order of their list, when the value changes. *)
Lemma setattr_spec name v s :
  observe (setattr name v s) = observe s
  /\ observe_attrs (setattr name v s) = observe_attrs s
  /\ calls (setattr name v s)
     = calls s
       ++ if decide (v ≠ default NOTHING (attrs s !! name))
          then (fun o => {| n_observer := o; n_name := name; n_new := v;
                            n_old := default NOTHING (attrs s !! name) |})
                 <$> observers_of s name
          else [].
Proof.
  unfold setattr, observers_of.
  destruct (observe s !! name) as [l|] eqn:Hl; simpl.
  - destruct (decide (v ≠ default NOTHING (attrs s !! name))); simpl.
    + apply (notify_fold name v _ l
               {| observe := observe s; observe_attrs := observe_attrs s;
                  attrs := <[name:=v]> (attrs s); calls := calls s |}).
    + by rewrite app_nil_r.
  - destruct (decide _); simpl; by rewrite app_nil_r.
Qed.

Lemma setattr_consistent name v s :
  consistent s -> consistent (setattr name v s).
Proof.
  intros Hs name'. destruct (setattr_spec name v s) as (H1 & H2 & _).
  unfold observers_of, names_of. rewrite H1, H2. apply Hs.
Qed.

Lemma run_consistent ops : forall s, consistent s -> consistent (run ops s).
Proof.
  induction ops as [|op ops IH]; intros s Hs; simpl; [done|].
  apply IH. destruct op; simpl.
  - by apply attach_consistent.
  - by apply detach_consistent.
  - by apply setattr_consistent.
Qed.

Lemma init_consistent : consistent init.
Proof.
  intros name. unfold observers_of, names_of, init. simpl.
  rewrite lookup_empty. simpl. split; [apply NoDup_nil_2|].
  intros o. rewrite lookup_empty. simpl. set_solver.
Qed.

Lemma filter_eq_NoDup (o : positive) (l : list positive) :
  NoDup l ->
  filter (fun o' => o' = o) l = if decide (o ∈ l) then [o] else [].
Proof.
  induction l as [|y l IH]; intros Hnd; [done|].
  apply NoDup_cons in Hnd as [Hy Hnd]. rewrite filter_cons, (IH Hnd).
  destruct (decide (y = o)) as [->|Hne].
  - rewrite (decide_False (P := o ∈ l)) by done.
    by rewrite (decide_True (P := o ∈ o :: l)) by (by left).
  - destruct (decide (o ∈ l)).
    + by rewrite (decide_True (P := o ∈ y :: l)) by (by right).
    + rewrite (decide_False (P := o ∈ y :: l)); [done|].
      intros [->|?]%elem_of_cons; done.
Qed.

Lemma filter_notifications (o : positive) name v old (l : list positive) :
  filter (fun n => n_observer n = o)
    ((fun o' => {| n_observer := o'; n_name := name; n_new := v; n_old := old |})
       <$> l)
  = (fun o' => {| n_observer := o'; n_name := name; n_new := v; n_old := old |})
      <$> filter (fun o' => o' = o) l.
Proof.
  induction l as [|y l IH]; [done|].
  rewrite fmap_cons, !filter_cons, IH. simpl.
  by destruct (decide (y = o)).
Qed.

(** The callback calls that one assignment adds for observer [o]. *)
Lemma setattr_calls_of o name v s :
  consistent s ->
  calls_of o (setattr name v s)
  = calls_of o s
    ++ if decide (v ≠ default NOTHING (attrs s !! name) /\ name ∈ names_of s o)
       then [{| n_observer := o; n_name := name; n_new := v;
                n_old := default NOTHING (attrs s !! name) |}]
       else [].
Proof.
  intros Hs. destruct (setattr_spec name v s) as (_ & _ & Hcalls).
  destruct (Hs name) as [Hnd Hel].
  unfold calls_of. rewrite Hcalls, filter_app. f_equal.
  destruct (decide (v ≠ default NOTHING (attrs s !! name))) as [Hv|Hv].
  - rewrite filter_notifications, (filter_eq_NoDup o _ Hnd).
    destruct (decide (o ∈ observers_of s name)) as [Ho|Ho].
    + rewrite decide_True; [done|]. split; [done|]. by apply Hel.
    + rewrite decide_False; [done|]. intros [_ H]. by apply Ho, Hel.
  - rewrite decide_False; [done|]. by intros [? _].
Qed.

Lemma subscriptions_spec o name s :
  consistent s ->
  subscriptions o name s = if decide (name ∈ names_of s o) then 1%nat else 0%nat.
Proof.
  intros Hs. destruct (Hs name) as [Hnd Hel].
  unfold subscriptions. rewrite (filter_eq_NoDup o _ Hnd).
  destruct (decide (o ∈ observers_of s name)) as [Ho|Ho].
  - rewrite decide_True; [done|]. by apply Hel.
  - rewrite decide_False; [done|]. intros H. by apply Ho, Hel.
Qed.

Lemma setattr_names o name v s :
  names_of (setattr name v s) o = names_of s o.
Proof.
  destruct (setattr_spec name v s) as (_ & H2 & _).
  unfold names_of. by rewrite H2.
Qed.

Lemma setattrs_spec (sets : list (string * pyval)) :
  forall s, consistent s ->
    consistent (setattrs sets s)
    /\ forall o, names_of (setattrs sets s) o = names_of s o.
Proof.
  induction sets as [|[n v] sets IH]; intros s Hs; simpl; [done|].
  destruct (IH (setattr n v s) (setattr_consistent n v s Hs)) as [Hs' Hn].
  split; [done|]. intros o. by rewrite Hn, setattr_names.
Qed.

(** An observer that is registered for nothing is not called. *)
Lemma setattrs_calls_unregistered o (sets : list (string * pyval)) :
  forall s, consistent s -> names_of s o = ∅ ->
    calls_of o (setattrs sets s) = calls_of o s.
Proof.
  induction sets as [|[n v] sets IH]; intros s Hs Hnone; simpl; [done|].
  rewrite IH.
  - rewrite (setattr_calls_of o n v s Hs), decide_False, app_nil_r; [done|].
    rewrite Hnone. set_solver.
  - by apply setattr_consistent.
  - by rewrite setattr_names.
Qed.

(** Attaching an observer that is attached already changes nothing. *)
Lemma attach_again observer i s :
  observe_inspect__ observer ⊆ names_of s (observer_id observer) ->
  attach__ observer i s = s.
Proof.
  intros Hsub. unfold attach__, names_of in *.
  destruct (observe_attrs s !! observer_id observer) as [known|]; simpl in *.
  - replace (observe_inspect__ observer ∖ known) with (∅ : gset string)
      by set_solver.
    by rewrite elements_empty.
  - replace (observe_inspect__ observer) with (∅ : gset string) by set_solver.
    by rewrite elements_empty.
Qed.

End ObserveFacts.



(* ================================================================== *)
(** * Properties of the object collectives *)
(* ================================================================== *)

Section CommFacts.
Import Comm.
Local Open Scope nat_scope.

Lemma foldl_max_le (l : list nat) :
  forall x, x <= foldl Nat.max x l /\ forall y, y ∈ l -> y <= foldl Nat.max x l.
Proof.
  induction l as [|z l IH]; intros x; simpl.
  - split; [lia|]. by intros y H%elem_of_nil.
  - destruct (IH (Nat.max x z)) as [H1 H2]. split; [lia|].
    intros y [->|Hy]%elem_of_cons; [lia|by apply H2].
Qed.

(** [max] of a list that is not empty is an upper bound of the list. *)
Lemma py_max_spec (l : list nat) :
  l ≠ [] -> exists m, py_max l = Ok m /\ forall y, y ∈ l -> y <= m.
Proof.
  destruct l as [|x l]; [done|]. intros _. exists (foldl Nat.max x l).
  split; [done|]. destruct (foldl_max_le l x) as [H1 H2].
  intros y [->|Hy]%elem_of_cons; [done|by apply H2].
Qed.

(** Growing a tensor keeps its elements: cutting the grown tensor at the
    old length gives the old tensor. *)
Lemma resize_spec (junk : nat -> byte) (tensor : list byte) (n : nat) :
  length tensor <= n ->
  length (resize_ junk tensor n) = n
  /\ take (length tensor) (resize_ junk tensor n) = tensor.
Proof.
  intros Hle. unfold resize_. rewrite take_ge by done. split.
  - rewrite length_app, length_fmap, length_seq. lia.
  - by rewrite take_app_length.
Qed.

Section Transfer.
Context {Obj : Type} (pickle : Obj -> list byte)
        (unpickle : list byte -> result Obj).
Hypothesis round_trip : forall o, unpickle (pickle o) = Ok o.

(** A tensor carries an object when its first bytes, up to the object's
    serialized size, are the object's pickle. *)
Local Abbreviation carries :=
  (fun (o : Obj) (t : list byte) => take (length (pickle o)) t = pickle o).
Local Abbreviation size_of := (fun o : Obj => length (pickle o)).

Lemma transfer_loop_spec (rest : list Obj) :
  forall (tensors : list (list byte)) (done : list Obj),
    Forall2 carries rest tensors ->
    transfer_loop unpickle (length done) tensors
      (size_of <$> (done ++ rest))
      ((Got <$> done) ++ replicate (length rest) NOTHING)
    = Ok (Got <$> (done ++ rest)).
Proof.
  induction rest as [|o rest IH]; intros tensors done Hcarry.
  - apply Forall2_nil_inv_l in Hcarry as ->. simpl. by rewrite !app_nil_r.
  - apply Forall2_cons_inv_l in Hcarry as (t & tensors' & Ht & Hcarry & ->).
    simpl.
    assert (Hsize : (size_of <$> (done ++ o :: rest)) !! length done
                    = Some (size_of o)).
    { rewrite fmap_app, lookup_app_r by (by rewrite length_fmap).
      by rewrite length_fmap, Nat.sub_diag. }
    rewrite Hsize. unfold _tensor_to_object. rewrite Ht, round_trip. simpl.
    rewrite decide_True
      by (rewrite length_app, length_fmap; simpl; lia).
    replace (<[length done:=Got o]>
               ((Got <$> done) ++ NOTHING :: replicate (length rest) NOTHING))
      with ((Got <$> (done ++ [o])) ++ replicate (length rest) (@NOTHING Obj)).
    + replace (S (length done)) with (length (done ++ [o]))
        by (rewrite length_app; simpl; lia).
      replace (done ++ o :: rest) with ((done ++ [o]) ++ rest)
        by (by rewrite <- app_assoc).
      by apply IH.
    + rewrite insert_app_r_alt by (by rewrite length_fmap).
      rewrite length_fmap, Nat.sub_diag. simpl.
      by rewrite fmap_app, <- app_assoc.
Qed.

Variable junk : nat -> nat -> byte.
Variable objs : list Obj.

Lemma resized_tensor_carries (m r : nat) (o : Obj) :
  size_of o <= m ->
  length (resized_tensor pickle junk m r o) = m
  /\ carries o (resized_tensor pickle junk m r o).
Proof. intros Hle. by apply resize_spec. Qed.

Lemma max_object_size_spec :
  objs ≠ [] ->
  exists m, py_max (_all_gather_size pickle objs) = Ok m
            /\ forall o, o ∈ objs -> size_of o <= m.
Proof.
  intros Hne. destruct (py_max_spec (_all_gather_size pickle objs)) as (m & Hm & Hle).
  { unfold _all_gather_size, dist_all_gather. by destruct objs. }
  exists m. split; [done|]. intros o Ho. apply Hle.
  unfold _all_gather_size, dist_all_gather. simpl.
  apply list_elem_of_fmap. by exists o.
Qed.

Lemma transfer_resized (m : nat) :
  (forall o, o ∈ objs -> size_of o <= m) ->
  _transfer_objects unpickle (imap (resized_tensor pickle junk m) objs)
    (_all_gather_size pickle objs) (length objs)
  = Ok (Got <$> objs).
Proof.
  intros Hle. unfold _transfer_objects.
  apply (transfer_loop_spec objs _ []).
  apply Forall2_lookup. intros i. rewrite list_lookup_imap.
  destruct (objs !! i) as [o|] eqn:Ho; simpl; constructor.
  apply resized_tensor_carries, Hle. by apply list_elem_of_lookup_2 in Ho.
Qed.

End Transfer.
End CommFacts.





(* ================================================================== *)
(** * Further properties of the scope guards and of [Base] *)
(* ================================================================== *)

Section ScopeFrameFacts.
Import Scoped.
Variable cls : pyclass.

(** The assignment loop writes to the attributes it is given only. *)
Lemma assign_items_frame (items : list (string * pyval)) (a : string) :
  forall w, a ∉ items.*1 ->
    dict (snd (assign_items cls items w)) !! a = dict w !! a.
Proof.
  induction items as [|[a0 v0] items IH]; intros w Ha; simpl; [done|].
  simpl in Ha. apply not_elem_of_cons in Ha as [Hne Ha].
  unfold setattr. destruct (setattr_guard cls (dict w) a0 v0) as [e|].
  - destruct (is_Exception e); [|done]. by rewrite IH.
  - rewrite IH by done. simpl. by apply lookup_insert_ne.
Qed.

Hypothesis Hexc : rejects_with_Exception cls.

(** The assignment loop, attribute by attribute: a value that the target
    takes is stored, a value that it rejects is logged and the attribute
    stays as it was. *)
Lemma assign_items_spec (items : list (string * pyval)) :
  forall w, NoDup items.*1 ->
  exists d' fails,
    assign_items cls items w = (None, {| dict := d'; log := log w ++ fails |})
    /\ (forall a v, (a, v) ∈ items ->
          d' !! a = Some v
          \/ (exists e, AssignFailed a e ∈ fails /\ d' !! a = dict w !! a))
    /\ (forall a v, (a, v) ∈ items -> accepts cls a v -> d' !! a = Some v)
    /\ (forall entry, entry ∈ fails ->
          exists a e, entry = AssignFailed a e /\ a ∈ items.*1).
Proof.
  induction items as [|[a0 v0] items IH]; intros w Hnd; simpl.
  - exists (dict w), []. rewrite app_nil_r. destruct w; simpl.
    repeat split; try done.
    + intros a v H. by apply elem_of_nil in H.
    + intros a v H. by apply elem_of_nil in H.
    + intros entry H. by apply elem_of_nil in H.
  - simpl in Hnd. apply NoDup_cons in Hnd as [Ha0 Hnd].
    destruct (setattr cls (dict w) a0 v0) as [d1|e] eqn:Hset.
    + assert (Hd1 : d1 = <[a0:=v0]> (dict w)).
      { unfold setattr in Hset.
        destruct (setattr_guard cls (dict w) a0 v0); by inversion Hset. }
      destruct (IH {| dict := d1; log := log w |} Hnd)
        as (d' & fails & Heq & Hin & Hacc & Hlog). simpl in *.
      pose proof (assign_items_frame items a0 {| dict := d1; log := log w |} Ha0)
        as Hkeep0. rewrite Heq in Hkeep0. simpl in Hkeep0.
      exists d', fails. split; [exact Heq|].
      assert (Hkeep : d' !! a0 = Some v0).
      { rewrite Hkeep0, Hd1. apply lookup_insert_eq. }
      split; [|split].
      * intros a v H. apply elem_of_cons in H as [[= -> ->]|H]; [by left|].
        destruct (Hin a v H) as [Hok|(e & He & Hsame)]; [by left|].
        right. exists e. split; [done|]. rewrite Hsame, Hd1.
        apply lookup_insert_ne. intros ->. by apply Ha0, elem_of_keys with v.
      * intros a v H Hv. apply elem_of_cons in H as [[= -> ->]|H]; [done|].
        by apply Hacc.
      * intros entry H. destruct (Hlog entry H) as (a & e & -> & Ha).
        exists a, e. split; [done|]. by right.
    + rewrite (setattr_Raise_Exception cls Hexc _ _ _ _ Hset).
      destruct (IH {| dict := dict w; log := log w ++ [AssignFailed a0 e] |} Hnd)
        as (d' & fails & Heq & Hin & Hacc & Hlog). simpl in *.
      pose proof (assign_items_frame items a0
                    {| dict := dict w; log := log w ++ [AssignFailed a0 e] |} Ha0)
        as Hkeep0. rewrite Heq in Hkeep0. simpl in Hkeep0.
      exists d', (AssignFailed a0 e :: fails).
      split; [by rewrite Heq, <- app_assoc|].
      split; [|split].
      * intros a v H. apply elem_of_cons in H as [[= -> ->]|H].
        -- right. exists e. split; [by left|done].
        -- destruct (Hin a v H) as [Hok|(e' & He' & Hsame)]; [by left|].
           right. exists e'. split; [by right|done].
      * intros a v H Hv. apply elem_of_cons in H as [[= -> ->]|H].
        -- unfold setattr in Hset. by rewrite (Hv (dict w)) in Hset.
        -- by apply Hacc.
      * intros entry H. apply elem_of_cons in H as [->|H].
        -- exists a0, e. split; [done|by left].
        -- destruct (Hlog entry H) as (a & e' & -> & Ha).
           exists a, e'. split; [done|by right].
Qed.

End ScopeFrameFacts.

(** X1: a scope guard touches the attributes it was given and no others:
    an attribute outside the guard has after the scope the value that the
    body left, and entering an [assign__] scope does not change it. *)
Theorem scope_leaves_other_attributes (cls : Scoped.pyclass)
    (attrs : list string) (kwargs : list (string * Scoped.pyval))
    (body : Scoped.block) (w0 : Scoped.world) (a : string) :
  Scoped.rejects_with_Exception cls ->
  (a ∉ attrs ->
     Scoped.dict (snd (Scoped.with_restore cls attrs body w0)) !! a
     = Scoped.dict (snd (body w0)) !! a)
  /\ (a ∉ kwargs.*1 ->
      let entered := snd (Scoped.ScopedAttrAssign_enter cls kwargs w0) in
      Scoped.dict entered !! a = Scoped.dict w0 !! a
      /\ Scoped.dict (snd (Scoped.with_assign cls kwargs body w0)) !! a
         = Scoped.dict (snd (body entered)) !! a).
Proof.
  intros Hexc.
  assert (Hexit : forall l w2, a ∉ l ->
            Scoped.dict (snd (Scoped.ScopedAttrRestore_exit cls true
                                (Scoped.ScopedAttrRestore_enter cls l w0) w2)) !! a
            = Scoped.dict w2 !! a).
  { intros l w2 Hl.
    destruct (ScopedAttrRestore_enter_spec cls w0 l) as (Hnd & Hfrom & _).
    destruct (restore_items_spec cls Hexc _ w2 Hnd) as (d' & fails & Heq & Hout & _).
    unfold Scoped.ScopedAttrRestore_exit. rewrite Heq. simpl. apply Hout.
    intros Hin. apply list_elem_of_fmap in Hin as [[a' x] [-> Hin]].
    by apply Hfrom in Hin as [_ Hin]. }
  split.
  - intros Ha. rewrite (with_restore_unfold cls Hexc). simpl. by apply Hexit.
  - intros Ha entered. split.
    + unfold entered, Scoped.ScopedAttrAssign_enter.
      pose proof (assign_items_frame cls kwargs a w0 Ha) as Hframe.
      by destruct (Scoped.assign_items cls kwargs w0) as [[e|] w1].
    + rewrite (with_assign_unfold cls Hexc). simpl. by apply Hexit.
Qed.

Lemma scope_leaves_other_attributes_witness :
  let w0 := {| Scoped.dict := {["y" := Scoped.PyInt 0]}; Scoped.log := [] |} in
  Scoped.dict (snd (Scoped.with_restore Scoped.Base_class ["x"]
                      (Scoped.store "y" (Scoped.PyInt 7)) w0)) !! "y"
  = Some (Scoped.PyInt 7).
Proof.
  intros w0.
  exact (proj1 (scope_leaves_other_attributes Scoped.Base_class ["x"] []
                  (Scoped.store "y" (Scoped.PyInt 7)) w0 "y"
                  Base_class_rejects_with_Exception)
           ltac:(set_solver)).
Defined.

(** X2: inside an [assign__] scope the body finds, for every keyword, the
    new value when the target takes it; when the target rejects it the
    attribute is as it was before the scope and the failure is logged as
    an assignment failure. *)
Theorem assign_scope_body_sees_values (cls : Scoped.pyclass)
    (kwargs : list (string * Scoped.pyval)) (w0 : Scoped.world) :
  Scoped.rejects_with_Exception cls ->
  NoDup kwargs.*1 ->
  let enter := Scoped.ScopedAttrAssign_enter cls kwargs w0 in
  exists fails,
    Scoped.log (snd enter) = Scoped.log w0 ++ fails
    /\ (exists prev_value_dict, fst enter = Ok prev_value_dict)
    /\ (forall a v, (a, v) ∈ kwargs ->
          Scoped.dict (snd enter) !! a = Some v
          \/ (exists e, Scoped.AssignFailed a e ∈ fails
                        /\ Scoped.dict (snd enter) !! a = Scoped.dict w0 !! a))
    /\ (forall a v, (a, v) ∈ kwargs -> Scoped.accepts cls a v ->
          Scoped.dict (snd enter) !! a = Some v).
Proof.
  intros Hexc Hnd enter.
  destruct (assign_items_spec cls Hexc kwargs w0 Hnd)
    as (d' & fails & Heq & Hin & Hacc & _).
  unfold enter, Scoped.ScopedAttrAssign_enter. rewrite Heq. simpl.
  exists fails. split; [done|]. split; [by eexists|]. by split.
Qed.

Lemma assign_scope_body_sees_values_witness :
  let enter := Scoped.ScopedAttrAssign_enter Scoped.Base_class
                 [("x", Scoped.PyInt 1); ("y", Scoped.PyStr "b")]
                 {| Scoped.dict := ∅; Scoped.log := [] |} in
  Scoped.dict (snd enter) !! "y" = Some (Scoped.PyStr "b").
Proof.
  intros enter.
  destruct (assign_scope_body_sees_values Scoped.Base_class
              [("x", Scoped.PyInt 1); ("y", Scoped.PyStr "b")]
              {| Scoped.dict := ∅; Scoped.log := [] |}
              Base_class_rejects_with_Exception
              ltac:(simpl; repeat constructor; set_solver))
    as (fails & _ & _ & _ & Hacc).
  exact (Hacc "y" (Scoped.PyStr "b") ltac:(set_solver) (Base_class_accepts _ _)).
Defined.

(** X3: [ReadonlyAttr] is write-once: once a listed attribute holds a value
    other than NOTHING, [setattr] on it raises [AttributeError], and no
    [setattr] that succeeds, on whatever attribute, changes it. *)
Theorem ReadonlyAttr_write_once (attrs : list string)
    (nothing_allowed empty_allowed : bool) (cls : Scoped.pyclass)
    (d : gmap string Scoped.pyval) (name : string) (v : Scoped.pyval) :
  name ∈ attrs -> d !! name = Some v -> v ≠ Scoped.NOTHING ->
  let readonly := Scoped.ReadonlyAttr attrs nothing_allowed empty_allowed cls in
  (forall x, Scoped.setattr readonly d name x
             = Raise (AttributeError (name +:+ " is readonly attribute")))
  /\ (forall a x d', Scoped.setattr readonly d a x = Ok d' ->
        d' !! name = Some v).
Proof.
  intros Hin Hd Hv readonly.
  assert (Hraise : forall x, Scoped.setattr readonly d name x
             = Raise (AttributeError (name +:+ " is readonly attribute"))).
  { intros x. unfold Scoped.setattr, readonly. simpl.
    rewrite bool_decide_eq_false_2 by (by intros H; apply H).
    unfold Scoped.hasattr, Scoped.getattr_default, Scoped.getattr.
    rewrite Hd. simpl. by destruct v. }
  split; [done|]. intros a x d' Hset.
  destruct (decide (a = name)) as [->|Hne]; [by rewrite Hraise in Hset|].
  unfold Scoped.setattr in Hset.
  destruct (Scoped.setattr_guard readonly d a x); [done|].
  injection Hset as <-. by rewrite lookup_insert_ne.
Qed.

Lemma ReadonlyAttr_write_once_witness :
  Scoped.setattr (Scoped.ReadonlyAttr ["x"] true true Scoped.object_class)
    {["x" := Scoped.PyInt 1]} "x" (Scoped.PyInt 2)
  = Raise (AttributeError "x is readonly attribute").
Proof.
  exact (proj1 (ReadonlyAttr_write_once ["x"] true true Scoped.object_class
                  {["x" := Scoped.PyInt 1]} "x" (Scoped.PyInt 1)
                  ltac:(set_solver) eq_refl ltac:(discriminate))
           (Scoped.PyInt 2)).
Defined.

(** X4: the first write to a listed attribute that is not set yet.  On a
    class that does not derive [Base] it goes through exactly when
    [empty_allowed] holds, whatever [nothing_allowed] is.  On a class that
    derives [Base], [hasattr] is always true, so [empty_allowed] has no
    effect: the write goes through exactly when [nothing_allowed] holds, and
    with [nothing_allowed=False] the attribute can never be written. *)
Theorem ReadonlyAttr_first_write (attrs : list string)
    (nothing_allowed empty_allowed : bool) (cls : Scoped.pyclass)
    (d : gmap string Scoped.pyval) (name : string) (x : Scoped.pyval) :
  name ∈ attrs ->
  let readonly := Scoped.ReadonlyAttr attrs nothing_allowed empty_allowed cls in
  let refused := Raise (AttributeError (name +:+ " is readonly attribute")) in
  (d !! name = None ->
     Scoped.setattr readonly d name x
     = if (if Scoped.derives_Base cls then nothing_allowed else empty_allowed)
       then Scoped.setattr cls d name x else refused)
  /\ (Scoped.derives_Base cls = true -> nothing_allowed = false ->
      Scoped.setattr readonly d name x = refused).
Proof.
  intros Hin readonly refused.
  assert (Hguard : Scoped.setattr readonly d name x
            = if (negb (Scoped.hasattr cls d name) && empty_allowed)
                 || (Scoped.is_nothing (Scoped.getattr_default cls d name Scoped.PyNone)
                     && nothing_allowed)
              then Scoped.setattr cls d name x else refused).
  { unfold Scoped.setattr at 1, readonly. simpl.
    rewrite bool_decide_eq_false_2 by (by intros H; apply H).
    by destruct (_ || _). }
  rewrite Hguard. split.
  - intros Hd. unfold Scoped.hasattr, Scoped.getattr_default, Scoped.getattr.
    rewrite Hd. destruct (Scoped.derives_Base cls); simpl.
    + done.
    + by rewrite orb_false_r.
  - intros HBase ->. unfold Scoped.hasattr, Scoped.getattr.
    rewrite HBase. rewrite andb_false_r.
    by destruct (d !! name).
Qed.

Lemma ReadonlyAttr_first_write_witness :
  Scoped.setattr (Scoped.ReadonlyAttr ["x"] false true Scoped.Base_class)
    ∅ "x" (Scoped.PyInt 1)
  = Raise (AttributeError "x is readonly attribute").
Proof.
  exact (proj2 (ReadonlyAttr_first_write ["x"] false true Scoped.Base_class
                  ∅ "x" (Scoped.PyInt 1) ltac:(set_solver))
           eq_refl eq_refl).
Defined.



Section CheckFacts.
Import Scoped.

Lemma split_dot_nonempty (s : string) : split_dot s ≠ [].
Proof.
  destruct s as [|c s]; simpl; [done|].
  destruct (decide (c = "."%char)); [done|]. by destruct (split_dot s).
Qed.

(** Splitting a dotted name built from two names gives the parts of the
    first followed by the parts of the second. *)
Lemma split_dot_app (p q : string) :
  split_dot (p +:+ "." +:+ q) = split_dot p ++ split_dot q.
Proof.
  induction p as [|c p IH]; simpl; [done|].
  rewrite IH. destruct (decide (c = "."%char)); [done|].
  pose proof (split_dot_nonempty p). by destruct (split_dot p).
Qed.

Lemma check_loop_app (l1 l2 : list string) :
  forall temp, fst (check_loop temp (l1 ++ l2)) = true ->
               fst (check_loop temp l1) = true.
Proof.
  induction l1 as [|attr l1 IH]; intros temp; simpl; [done|].
  destruct (node_getitem temp attr) as [[[]|attrs]|e]; simpl; try done;
    apply IH.
Qed.

(** [check__] logs an exception exactly when it runs into a value that has
    no attributes; it never logs when it answers True. *)
Lemma check_loop_true_no_log (l : list string) :
  forall temp, fst (check_loop temp l) = true -> snd (check_loop temp l) = [].
Proof.
  induction l as [|attr l IH]; intros temp; simpl; [done|].
  destruct (node_getitem temp attr) as [[[]|attrs]|e]; simpl; try done;
    apply IH.
Qed.

End CheckFacts.

(** X6: [check__] is closed under prefixes of a dotted path: when
    [check__('p.q')] is True then [check__('p')] is True, and a check that
    answers True has logged no exception. *)
Theorem check_prefix_closed (self : Scoped.pynode) (p q : string) :
  fst (Scoped.Base_check__ self (p +:+ "." +:+ q)) = true ->
  fst (Scoped.Base_check__ self p) = true
  /\ snd (Scoped.Base_check__ self (p +:+ "." +:+ q)) = [].
Proof.
  intros H. split.
  - unfold Scoped.Base_check__ in *. rewrite split_dot_app in H.
    by apply check_loop_app in H.
  - by apply check_loop_true_no_log.
Qed.

Lemma check_prefix_closed_witness :
  let ctx := Scoped.BaseNode
               [("step_ctx",
                 Scoped.BaseNode [("loss", Scoped.Atom (Scoped.PyInt 1))])] in
  fst (Scoped.Base_check__ ctx "step_ctx") = true.
Proof.
  intros ctx.
  exact (proj1 (check_prefix_closed ctx "step_ctx" "loss" eq_refl)).
Defined.

(* ================================================================== *)
(** * Further properties of the observers *)
(* ================================================================== *)

Section ObserveOrderFacts.
Import Scoped Observe.

Lemma attach_attr_attrs_calls o name i s :
  attrs (attach_attr__ o name i s) = attrs s
  /\ calls (attach_attr__ o name i s)
     = calls s ++ if i then [{| n_observer := o; n_name := name;
                                n_new := default NOTHING (attrs s !! name);
                                n_old := NOTHING |}]
                  else [].
Proof. unfold attach_attr__. destruct i; simpl; [done|by rewrite app_nil_r]. Qed.

Lemma attach_fold_effect o i (l : list string) :
  forall s,
    let s' := foldl (fun s name => attach_attr__ o name i s) s l in
    attrs s' = attrs s
    /\ calls s'
       = calls s ++ (if i then (fun name =>
                                  {| n_observer := o; n_name := name;
                                     n_new := default NOTHING (attrs s !! name);
                                     n_old := NOTHING |}) <$> l
                     else [])
    /\ forall name, NoDup l ->
         observers_of s' name
         = if decide (name ∈ l) then observers_of s name ++ [o]
           else observers_of s name.
Proof.
  induction l as [|n l IH]; intros s; cbn [foldl].
  - split; [done|]. split; [by destruct i; rewrite ?fmap_nil, app_nil_r|].
    intros name _. rewrite decide_False; [done|]. by intros H%elem_of_nil.
  - destruct (IH (attach_attr__ o n i s)) as (Ha & Hc & Ho).
    destruct (attach_attr_attrs_calls o n i s) as [Ha1 Hc1].
    split; [by rewrite Ha|]. split.
    + rewrite Hc, Hc1, Ha1. destruct i; simpl.
      * by rewrite <- app_assoc.
      * by rewrite !app_nil_r.
    + intros name [Hn Hnd]%NoDup_cons. rewrite (Ho name Hnd).
      rewrite attach_attr_observers.
      destruct (decide (name = n)) as [->|Hne].
      * rewrite (decide_False (P := n ∈ l)) by done.
        by rewrite (decide_True (P := n ∈ n :: l)) by (by left).
      * destruct (decide (name ∈ l)).
        -- by rewrite (decide_True (P := name ∈ n :: l)) by (by right).
        -- rewrite (decide_False (P := name ∈ n :: l)); [done|].
           intros [?|?]%elem_of_cons; done.
Qed.

(** The names that [attach__] attaches. *)
Lemma attach_new_names observer s :
  match observe_attrs s !! observer_id observer with
  | Some known => observe_inspect__ observer ∖ known
  | None => observe_inspect__ observer
  end = observe_inspect__ observer ∖ names_of s (observer_id observer).
Proof.
  unfold names_of. destruct (observe_attrs s !! _); simpl; [done|].
  by rewrite difference_empty_L.
Qed.

Lemma filter_ne_notin o (l : list positive) :
  o ∉ l -> filter (fun x => x ≠ o) l = l.
Proof.
  induction l as [|y l IH]; intros Ho; [done|].
  apply not_elem_of_cons in Ho as [Hne Ho].
  rewrite filter_cons_True by done. by rewrite IH.
Qed.

(** On a list without repetitions, [list.remove] is filtering out. *)
Lemma list_remove_filter o (l : list positive) :
  NoDup l -> list_remove o l = filter (fun x => x ≠ o) l.
Proof.
  induction l as [|y l IH]; intros Hnd; [done|].
  apply NoDup_cons in Hnd as [Hy Hnd]. simpl.
  destruct (decide (o = y)) as [->|Hne].
  - rewrite filter_cons_False by (by intros H; apply H).
    by rewrite filter_ne_notin.
  - rewrite filter_cons_True by done. by rewrite IH.
Qed.

Lemma detach_fold_observers o (l : list string) :
  forall s name, NoDup l ->
    observers_of (foldl (fun s name => detach_attr__ o name s) s l) name
    = if decide (name ∈ l) then list_remove o (observers_of s name)
      else observers_of s name.
Proof.
  induction l as [|n l IH]; intros s name Hnd; cbn [foldl].
  - rewrite decide_False; [done|]. by intros H%elem_of_nil.
  - apply NoDup_cons in Hnd as [Hn Hnd]. rewrite (IH _ _ Hnd).
    rewrite detach_attr_observers.
    destruct (decide (name = n)) as [->|Hne].
    + rewrite (decide_False (P := n ∈ l)) by done.
      by rewrite (decide_True (P := n ∈ n :: l)) by (by left).
    + destruct (decide (name ∈ l)).
      * by rewrite (decide_True (P := name ∈ n :: l)) by (by right).
      * rewrite (decide_False (P := name ∈ n :: l)); [done|].
        intros [?|?]%elem_of_cons; done.
Qed.

Lemma detach_fold_names_other o o' (l : list string) :
  o' ≠ o ->
  forall s, names_of (foldl (fun s name => detach_attr__ o name s) s l) o'
            = names_of s o'.
Proof.
  intros Hne. induction l as [|n l IH]; intros s; simpl; [done|].
  by rewrite IH, detach_attr_names, decide_False.
Qed.

Lemma detach_fold_attrs_calls o (l : list string) :
  forall s,
    attrs (foldl (fun s name => detach_attr__ o name s) s l) = attrs s
    /\ calls (foldl (fun s name => detach_attr__ o name s) s l) = calls s.
Proof.
  induction l as [|n l IH]; intros s; simpl; [done|].
  by destruct (IH (detach_attr__ o n s)) as [-> ->].
Qed.

End ObserveOrderFacts.

(** X7: [attach__] with [init=True] calls the observer's callback once for
    each attribute it newly attaches, with the attribute's current value
    (NOTHING when unset) as the new value and NOTHING as the old value;
    with [init=False] it calls nothing.  It never changes an attribute. *)
Theorem attach_init_notification (observer : Observe.AttrObserver)
    (init : bool) (s : Observe.AttrObservable) :
  let o := Observe.observer_id observer in
  let new_names :=
    elements (Observe.observe_inspect__ observer ∖ Observe.names_of s o) in
  Observe.attrs (Observe.attach__ observer init s) = Observe.attrs s
  /\ Observe.calls (Observe.attach__ observer init s)
     = Observe.calls s
       ++ if init
          then (fun name =>
                  {| Observe.n_observer := o; Observe.n_name := name;
                     Observe.n_new :=
                       default Scoped.NOTHING (Observe.attrs s !! name);
                     Observe.n_old := Scoped.NOTHING |}) <$> new_names
          else [].
Proof.
  intros o new_names. unfold Observe.attach__.
  rewrite attach_new_names. fold o. fold new_names.
  destruct (attach_fold_effect o init new_names s) as (Ha & Hc & _).
  by split.
Qed.




(* ================================================================== *)
(** * Further properties of the object collectives *)
(* ================================================================== *)





(* ================================================================== *)
(** * Further properties of the handlers *)
(* ================================================================== *)

Section AccumulationFacts.
Import Handlers.
Local Open Scope nat_scope.

Variables (A n : nat).
Hypothesis HA : 0 < A.

(** What step [i] of the epoch does. *)
Local Abbreviation step_events :=
  (fun i : nat =>
     Backward (Z.of_nat (if decide (i < A * (n / A)) then A else n mod A))
     :: if decide ((i + 1) mod A = 0 \/ i + 1 = n)
        then [OptimizerStep; ZeroGrad] else []).

Lemma optimizer_step_events (i : nat) (ctx : Context) :
  i < n ->
  step_total ctx = Z.of_nat n -> step_current ctx = Z.of_nat i ->
  step_loss ctx = true -> grad_acc ctx = Z.of_nat A -> optimizer ctx = true ->
  OptimizerContainer_handle [BackwardHandler_handle] ctx = Ok (step_events i).
Proof.
  intros Hi Htotal Hcur Hloss Hacc Hopt.
  unfold OptimizerContainer_handle, container_handle, BackwardHandler_handle.
  rewrite Hloss, Hopt, Htotal, Hcur, Hacc.
  rewrite !py_mod_nonzero by lia. cbn [mbind result_bind app].
  rewrite <- Nat2Z.inj_mod.
  replace (Z.of_nat i + 1)%Z with (Z.of_nat (i + 1)) by lia.
  rewrite <- Nat2Z.inj_mod.
  assert (Hdiv : (Z.of_nat n - Z.of_nat i - 1 >= Z.of_nat (n mod A))%Z
                 <-> i < A * (n / A)).
  { rewrite Nat2Z.inj_mod.
    rewrite (trailing_group_boundary (Z.of_nat n) (Z.of_nat A) (Z.of_nat i))
      by lia.
    rewrite <- Nat2Z.inj_div, <- Nat2Z.inj_mul. lia. }
  assert (Hfire : (Z.of_nat ((i + 1) mod A) = 0%Z
                   \/ Z.of_nat (i + 1) = Z.of_nat n)
                  <-> ((i + 1) mod A = 0 \/ i + 1 = n)) by lia.
  destruct (decide (Z.of_nat n - Z.of_nat i - 1 >= Z.of_nat (n mod A))%Z)
    as [Hge|Hlt];
    [rewrite (decide_True (P := i < A * (n / A))) by (by apply Hdiv)
    |rewrite (decide_False (P := i < A * (n / A))) by (by rewrite <- Hdiv)];
    (destruct (decide (Z.of_nat ((i + 1) mod A) = 0%Z)) as [Hm|Hm];
     [rewrite (decide_True (P := (i + 1) mod A = 0 \/ i + 1 = n)) by lia; done|];
     destruct (decide (i + 1 = n)) as [He|He];
     [rewrite bool_decide_eq_true_2 by lia;
      rewrite (decide_True (P := (i + 1) mod A = 0 \/ i + 1 = n)) by lia; done
     |rewrite bool_decide_eq_false_2 by lia;
      rewrite (decide_False (P := (i + 1) mod A = 0 \/ i + 1 = n)) by lia; done]).
Qed.

Lemma concat_const {X Y} (f : X -> list Y) (y : Y) (l : list X) :
  (forall x, x ∈ l -> f x = [y]) -> concat (f <$> l) = replicate (length l) y.
Proof.
  induction l as [|x l IH]; intros H; [done|].
  rewrite fmap_cons. cbn [concat length replicate].
  rewrite (H x) by (by left). rewrite IH; [done|].
  intros x' Hx'. apply H. by right.
Qed.

(** A run of [g] steps from step [b] that are all scaled by [g] and of
    which the last one alone updates the optimizer is one group. *)
Lemma group_of_steps (f : nat -> list event) (b g : nat) :
  0 < g ->
  (forall i, b <= i < b + g - 1 -> f i = [Backward (Z.of_nat g)]) ->
  f (b + g - 1) = [Backward (Z.of_nat g); OptimizerStep; ZeroGrad] ->
  concat (f <$> seq b g) = group_events g.
Proof.
  intros Hg Hinner Hlast.
  replace g with ((g - 1) + 1) at 1 by lia.
  rewrite seq_app, fmap_app, concat_app.
  rewrite (concat_const f (Backward (Z.of_nat g))).
  - rewrite length_seq. simpl. rewrite app_nil_r.
    replace (b + (g - 1)) with (b + g - 1) by lia. rewrite Hlast.
    unfold group_events. replace g with (S (g - 1)) at 4 by lia.
    rewrite replicate_S_end, <- app_assoc. done.
  - intros i Hi%elem_of_seq. apply Hinner. lia.
Qed.

Lemma mod_in_block (k j : nat) : j < A -> (k * A + j) mod A = j.
Proof.
  intros Hj. rewrite Nat.add_comm, Nat.Div0.mod_add. by apply Nat.mod_small.
Qed.

Lemma mod_block_end (k : nat) : (k * A + A) mod A = 0.
Proof.
  replace (k * A + A) with (0 + (k + 1) * A) by lia.
  rewrite Nat.Div0.mod_add. by apply Nat.mod_small.
Qed.

Lemma full_block (k : nat) :
  k < n / A -> concat (step_events <$> seq (k * A) A) = group_events A.
Proof.
  intros Hk.
  pose proof (Nat.div_mod_eq n A) as Hn.
  pose proof (Nat.mod_upper_bound n A ltac:(lia)) as Hr.
  assert (Hfull : (k + 1) * A <= A * (n / A)) by nia.
  apply group_of_steps; [done| |].
  - intros i [Hlo Hhi].
    rewrite decide_True by lia.
    rewrite decide_False; [done|]. intros [Hm|He]; [|lia].
    replace (i + 1) with (k * A + (i + 1 - k * A)) in Hm by lia.
    rewrite mod_in_block in Hm by lia. lia.
  - rewrite decide_True by lia.
    rewrite decide_True; [done|]. left.
    replace (k * A + A - 1 + 1) with (k * A + A) by lia. apply mod_block_end.
Qed.

Lemma full_blocks (k : nat) :
  k <= n / A ->
  concat (step_events <$> seq 0 (k * A)) = concat (group_events <$> replicate k A).
Proof.
  induction k as [|k IH]; intros Hk; [done|].
  replace (S k * A) with (k * A + A) by lia.
  rewrite seq_app, fmap_app, concat_app, IH by lia. cbn [Nat.add].
  rewrite full_block by lia.
  rewrite replicate_S_end, fmap_app, concat_app.
  cbn [fmap list_fmap concat]. by rewrite app_nil_r.
Qed.

Lemma trailing_block :
  n mod A ≠ 0 ->
  concat (step_events <$> seq (n / A * A) (n mod A)) = group_events (n mod A).
Proof.
  intros Hr0.
  pose proof (Nat.div_mod_eq n A) as Hn.
  pose proof (Nat.mod_upper_bound n A ltac:(lia)) as Hr.
  apply group_of_steps; [lia| |].
  - intros i [Hlo Hhi].
    rewrite decide_False by lia.
    rewrite decide_False; [done|]. intros [Hm|He]; [|lia].
    replace (i + 1) with (n / A * A + (i + 1 - n / A * A)) in Hm by lia.
    rewrite mod_in_block in Hm by lia. lia.
  - rewrite decide_False by lia.
    rewrite decide_True; [done|]. right. lia.
Qed.

(** The steps of an epoch, one after the other, are its accumulation
    groups, one after the other. *)
Lemma steps_are_groups :
  concat (step_events <$> seq 0 n)
  = concat (group_events <$> accumulation_groups A n).
Proof.
  pose proof (Nat.div_mod_eq n A) as Hn.
  unfold accumulation_groups.
  replace n with (n / A * A + n mod A) at 1 by lia.
  rewrite seq_app, !fmap_app, !concat_app, full_blocks by done. f_equal.
  destruct (decide (n mod A = 0)) as [->|Hr]; [done|].
  simpl. rewrite app_nil_r. by apply trailing_block.
Qed.

Lemma updates_group (g : nat) : updates (group_events g) = 1.
Proof.
  assert (Hnone : forall m d,
            filter (fun ev => ev = OptimizerStep) (replicate m (Backward d)) = []).
  { intros m d. induction m as [|m IH]; [done|].
    cbn [replicate]. by rewrite filter_cons_False. }
  unfold updates, group_events. by rewrite filter_app, length_app, Hnone.
Qed.

Lemma updates_groups (l : list nat) :
  updates (concat (group_events <$> l)) = length l.
Proof.
  induction l as [|g l IH]; [done|].
  rewrite fmap_cons. cbn [concat]. unfold updates in *.
  rewrite filter_app, length_app, IH. simpl.
  pose proof (updates_group g) as Hg. unfold updates in Hg. by rewrite Hg.
Qed.

Lemma iteration_loop_events {Batch : Type} (ctx : Context)
    (batches : list Batch) :
  step_total ctx = Z.of_nat n -> step_loss ctx = true ->
  grad_acc ctx = Z.of_nat A -> optimizer ctx = true ->
  forall c, c + length batches <= n ->
    iteration_loop [fun _ => OptimizerContainer_handle [BackwardHandler_handle]]
      ctx (Z.of_nat c) batches
    = Ok (concat (step_events <$> seq c (length batches))).
Proof.
  intros Htotal Hloss Hacc Hopt.
  induction batches as [|batch batches IH]; intros c Hc; [done|].
  cbn [iteration_loop fmap list_fmap container_handle length seq].
  rewrite (optimizer_step_events c) by (simpl in *; try done; lia).
  cbn [mbind result_bind].
  replace (Z.of_nat c + 1)%Z with (Z.of_nat (S c)) by lia.
  rewrite IH by (simpl in Hc; lia). cbn [mbind result_bind].
  cbn [concat]. by rewrite app_nil_r.
Qed.

End AccumulationFacts.

Lemma epoch_loop_const (children : Z -> result (list Handlers.event))
    (trace : list Handlers.event) (epochs : list Z) :
  (forall current, children current = Ok trace) ->
  Handlers.epoch_loop children epochs
  = Ok (concat (replicate (length epochs) trace)).
Proof.
  intros Hc. induction epochs as [|e epochs IH]; [done|].
  simpl. rewrite Hc. cbn [mbind result_bind]. rewrite IH. done.
Qed.

(** X12: an [IterationContainer] around an [OptimizerContainer] with a
    [BackwardHandler], over a loader of [n] batches with a loss and an
    optimizer configured and a positive accumulation factor [A], runs the
    accumulation groups of the epoch one after the other: each group of
    [g] steps makes [g] backward passes, each scaled by [g], and then one
    optimizer update with a gradient reset; the groups are [n / A] groups
    of [A] steps and a last group of [n mod A] steps when that is not
    zero. *)
Theorem accumulation_in_groups {Batch : Type} (loader : list Batch)
    (A : nat) (ctx : Handlers.Context) :
  (0 < A)%nat ->
  Handlers.step_loss ctx = true -> Handlers.optimizer ctx = true ->
  Handlers.grad_acc ctx = Z.of_nat A ->
  Handlers.IterationContainer_handle
    [fun _ => Handlers.OptimizerContainer_handle [Handlers.BackwardHandler_handle]]
    ctx (Some loader)
  = Ok (concat (Handlers.group_events
                  <$> Handlers.accumulation_groups A (length loader))).
Proof.
  intros HA Hloss Hopt Hacc. unfold Handlers.IterationContainer_handle.
  rewrite <- (steps_are_groups A (length loader) HA).
  by apply (iteration_loop_events A (length loader) HA _ loader) with (c := 0%nat).
Qed.

Lemma accumulation_in_groups_witness :
  Handlers.IterationContainer_handle
    [fun _ : bool =>
       Handlers.OptimizerContainer_handle [Handlers.BackwardHandler_handle]]
    (Handlers.step_context 0 2 0) (Some [true; true; true])
  = Ok (Handlers.group_events 2 ++ Handlers.group_events 1).
Proof.
  exact (accumulation_in_groups [true; true; true] 2
           (Handlers.step_context 0 2 0) ltac:(lia) eq_refl eq_refl eq_refl).
Defined.

(** X13: an [EpochIterationContainer] around that [IterationContainer]
    makes, for the epochs [start .. total - 1], [total - start] times the
    updates of one epoch, which are [n / A], plus one when [A] does not
    divide [n]; with [start >= total] no epoch runs and nothing is done. *)
Theorem epochs_times_groups {Batch : Type} (loader : list Batch)
    (A : nat) (ctx : Handlers.Context) (start total : Z) :
  (0 < A)%nat ->
  Handlers.step_loss ctx = true -> Handlers.optimizer ctx = true ->
  Handlers.grad_acc ctx = Z.of_nat A ->
  let n := length loader in
  let epoch :=
    Handlers.IterationContainer_handle
      [fun _ => Handlers.OptimizerContainer_handle
                  [Handlers.BackwardHandler_handle]] ctx (Some loader) in
  exists evs,
    Handlers.EpochIterationContainer_handle (fun _ => epoch) start total = Ok evs
    /\ Handlers.updates evs
       = (Z.to_nat (total - start)
          * (n / A + if decide (n mod A = 0) then 0 else 1))%nat
    /\ (total <= start -> evs = []).
Proof.
  intros HA Hloss Hopt Hacc n epoch.
  pose proof (accumulation_in_groups loader A ctx HA Hloss Hopt Hacc) as Hepoch.
  fold epoch in Hepoch. fold n in Hepoch.
  set (trace := concat (Handlers.group_events
                          <$> Handlers.accumulation_groups A n)) in *.
  exists (concat (replicate (Z.to_nat (total - start)) trace)).
  split; [|split].
  - unfold Handlers.EpochIterationContainer_handle.
    rewrite (epoch_loop_const _ trace) by done. by rewrite length_seqZ.
  - assert (Htrace : Handlers.updates trace
              = (n / A + if decide (n mod A = 0) then 0 else 1)%nat).
    { unfold trace. rewrite updates_groups. unfold Handlers.accumulation_groups.
      rewrite length_app, length_replicate. by destruct (decide _). }
    rewrite <- Htrace. generalize (Z.to_nat (total - start)) as k.
    induction k as [|k IH]; [done|].
    cbn [replicate concat]. unfold Handlers.updates in *.
    rewrite filter_app, length_app, IH. lia.
  - intros Hle. by replace (Z.to_nat (total - start)) with 0%nat by lia.
Qed.

Lemma epochs_times_groups_witness :
  exists evs,
    Handlers.EpochIterationContainer_handle
      (fun _ => Handlers.IterationContainer_handle
                  [fun _ : bool =>
                     Handlers.OptimizerContainer_handle
                       [Handlers.BackwardHandler_handle]]
                  (Handlers.step_context 0 2 0)
                  (Some [true; true; true; true])) 0 2 = Ok evs
    /\ Handlers.updates evs = 4%nat.
Proof.
  destruct (epochs_times_groups [true; true; true; true] 2
              (Handlers.step_context 0 2 0) 0 2 ltac:(lia)
              eq_refl eq_refl eq_refl) as (evs & Hrun & Hupd & _).
  exists evs. split; [exact Hrun|exact Hupd].
Defined.

(* ================================================================== *)
(** * Properties of the bidirectional lists *)
(* ================================================================== *)

Section BiListFacts.
Import BiList.
Local Open Scope nat_scope.
Variable self : positive.

Lemma del_parents_effect (replaced : list positive) :
  forall st,
    items (del_parents replaced st) = items st
    /\ warnings (del_parents replaced st) = warnings st
    /\ forall y, parent (del_parents replaced st) !! y
                 = if decide (y ∈ replaced) then None else parent st !! y.
Proof.
  induction replaced as [|r replaced IH]; intros st; cbn [del_parents foldl].
  - split; [done|]. split; [done|]. intros y.
    rewrite decide_False; [done|]. by intros H%elem_of_nil.
  - destruct (IH (del_parent__ r st)) as (Hi & Hw & Hp).
    split; [done|]. split; [done|]. intros y.
    unfold del_parents in Hp. rewrite Hp. simpl.
    destruct (decide (y ∈ replaced)) as [Hin|Hnin].
    + by rewrite (decide_True (P := y ∈ r :: replaced)) by (by right).
    + destruct (decide (y = r)) as [->|Hne].
      * rewrite (decide_True (P := r ∈ r :: replaced)) by (by left).
        apply lookup_delete_eq.
      * rewrite (decide_False (P := y ∈ r :: replaced))
          by (intros [?|?]%elem_of_cons; done).
        by apply lookup_delete_ne.
Qed.

Lemma set_parents_effect (value : list positive) :
  forall st,
    items (set_parents self value st) = items st
    /\ forall y, parent (set_parents self value st) !! y
                 = if decide (y ∈ value) then Some self else parent st !! y.
Proof.
  induction value as [|v value IH]; intros st; cbn [set_parents foldl].
  - split; [done|]. intros y.
    rewrite decide_False; [done|]. by intros H%elem_of_nil.
  - destruct (IH (set_parent__ self v st)) as (Hi & Hp).
    split; [done|]. intros y.
    unfold set_parents in Hp. rewrite Hp. simpl.
    destruct (decide (y ∈ value)) as [Hin|Hnin].
    + by rewrite (decide_True (P := y ∈ v :: value)) by (by right).
    + destruct (decide (y = v)) as [->|Hne].
      * rewrite (decide_True (P := v ∈ v :: value)) by (by left).
        apply lookup_insert_eq.
      * rewrite (decide_False (P := y ∈ v :: value))
          by (intros [?|?]%elem_of_cons; done).
        by apply lookup_insert_ne.
Qed.

(** Items that have no parent or this list as parent are taken without a
    warning. *)
Lemma set_parents_no_warning (value : list positive) :
  forall st,
    (forall x, x ∈ value -> parent st !! x = None \/ parent st !! x = Some self) ->
    warnings (set_parents self value st) = warnings st.
Proof.
  induction value as [|v value IH]; intros st Hfree; cbn [set_parents foldl];
    [done|].
  unfold set_parents in IH. rewrite IH.
  - simpl. destruct (Hfree v ltac:(by left)) as [->| ->]; [done|].
    by rewrite decide_False by (by intros H; apply H).
  - intros x Hx. simpl. destruct (decide (x = v)) as [->|Hne].
    + right. apply lookup_insert_eq.
    + rewrite lookup_insert_ne by done. apply Hfree. by right.
Qed.

Lemma elem_of_take_drop_split (l : list positive) (a b : nat) (y : positive) :
  a <= b ->
  y ∈ l <-> y ∈ take a l \/ y ∈ take (b - a) (drop a l) \/ y ∈ drop b l.
Proof.
  intros Hab.
  rewrite <- (take_drop a l) at 1.
  rewrite <- (take_drop (b - a) (drop a l)) at 1.
  rewrite drop_drop. replace (a + (b - a)) with b by lia.
  by rewrite !elem_of_app.
Qed.

Lemma NoDup_take_drop_split (l : list positive) (a b : nat) :
  a <= b -> NoDup l ->
  NoDup (take a l ++ drop b l)
  /\ forall y, y ∈ take (b - a) (drop a l) -> y ∉ take a l ++ drop b l.
Proof.
  intros Hab Hnd.
  rewrite <- (take_drop a l) in Hnd.
  rewrite <- (take_drop (b - a) (drop a l)) in Hnd.
  rewrite drop_drop in Hnd. replace (a + (b - a)) with b in Hnd by lia.
  apply NoDup_app in Hnd as (Hnd1 & Hdisj1 & Hnd2).
  apply NoDup_app in Hnd2 as (Hnd2 & Hdisj2 & Hnd3).
  split.
  - apply NoDup_app. split; [done|]. split; [|done].
    intros y Hy Hy'. apply (Hdisj1 y Hy). apply elem_of_app. by right.
  - intros y Hy [Hy'|Hy']%elem_of_app.
    + apply (Hdisj1 y Hy'). apply elem_of_app. by left.
    + by apply (Hdisj2 y Hy).
Qed.

(** Replacing a stretch of a consistent list by items that are nowhere
    else in the list gives a consistent list. *)
Lemma splice_consistent (a b : nat) (value : list positive) (st : state) :
  consistent self st -> a <= b ->
  NoDup value ->
  (forall x, x ∈ value -> x ∉ take a (items st) ++ drop b (items st)) ->
  consistent self (splice self a b value st).
Proof.
  intros [Hnd Hpar] Hab Hval Hfresh. unfold splice.
  set (replaced := take (b - a) (drop a (items st))).
  destruct (del_parents_effect replaced st) as (Hi1 & _ & Hp1).
  destruct (set_parents_effect value (del_parents replaced st)) as (Hi2 & Hp2).
  destruct (NoDup_take_drop_split (items st) a b Hab Hnd) as [Hkeep Hrepl].
  cbn [set_items items parent]. rewrite Hi2, Hi1. split.
  - apply NoDup_app in Hkeep as (Hk1 & Hk2 & Hk3).
    apply NoDup_app. split; [done|]. split.
    + intros y Hy [Hy'|Hy']%elem_of_app.
      * apply (Hfresh y Hy'). apply elem_of_app. by left.
      * by apply (Hk2 y).
    + apply NoDup_app. split; [done|]. split; [|done].
      intros y Hy Hy'. apply (Hfresh y Hy). apply elem_of_app. by right.
  - intros y. unfold set_items. cbn [items parent]. rewrite Hp2, Hp1.
    rewrite !elem_of_app.
    destruct (decide (y ∈ value)) as [Hv|Hv]; [naive_solver|].
    fold replaced in Hrepl.
    destruct (decide (y ∈ replaced)) as [Hr|Hr].
    + specialize (Hrepl y Hr). rewrite elem_of_app in Hrepl. naive_solver.
    + rewrite <- Hpar. rewrite (elem_of_take_drop_split (items st) a b y Hab).
      fold replaced. naive_solver.
Qed.

Lemma py_index_Ok (len : nat) (key : Z) (j : nat) :
  py_index len key = Ok j -> j < len.
Proof.
  unfold py_index. destruct (decide (key < 0)%Z); case_decide; intros [= <-]; lia.
Qed.

Lemma setitem_index_splice (key : Z) (value : positive) (st : state) (j : nat) :
  py_index (length (items st)) key = Ok j ->
  setitem_index self key value st = (None, splice self j (S j) [value] st).
Proof.
  intros Hj. unfold setitem_index. rewrite Hj.
  pose proof (py_index_Ok _ _ _ Hj) as Hlt.
  destruct (lookup_lt_is_Some_2 (items st) j Hlt) as [r Hr]. rewrite Hr.
  unfold splice. replace (S j - j) with 1 by lia.
  rewrite (drop_S _ _ _ Hr). cbn [take del_parents set_parents foldl].
  f_equal. unfold set_items. cbn [items parent warnings].
  f_equal. by apply insert_take_drop.
Qed.

Lemma delitem_index_splice (key : Z) (st : state) (j : nat) :
  py_index (length (items st)) key = Ok j ->
  delitem_index key st = (None, splice self j (S j) [] st).
Proof.
  intros Hj. unfold delitem_index. rewrite Hj.
  pose proof (py_index_Ok _ _ _ Hj) as Hlt.
  destruct (lookup_lt_is_Some_2 (items st) j Hlt) as [r Hr]. rewrite Hr.
  unfold splice. replace (S j - j) with 1 by lia.
  rewrite (drop_S _ _ _ Hr). cbn [take del_parents set_parents foldl].
  f_equal. unfold set_items. cbn [items parent warnings].
  f_equal. by rewrite delete_take_drop.
Qed.

Lemma slice_bounds_le (len : nat) (start stop : option Z) :
  (slice_bounds len start stop).1 <= (slice_bounds len start stop).2.
Proof. unfold slice_bounds. simpl. lia. Qed.

Lemma elem_of_take_in (l : list positive) (a : nat) (x : positive) :
  x ∈ take a l -> x ∈ l.
Proof. intros H. rewrite <- (take_drop a l). apply elem_of_app. by left. Qed.

Lemma elem_of_drop_in (l : list positive) (a : nat) (x : positive) :
  x ∈ drop a l -> x ∈ l.
Proof. intros H. rewrite <- (take_drop a l). apply elem_of_app. by right. Qed.

Lemma not_in_kept (l : list positive) (a b : nat) (x : positive) :
  x ∉ l -> x ∉ take a l ++ drop b l.
Proof.
  intros Hx [H|H]%elem_of_app; apply Hx.
  - by apply elem_of_take_in in H.
  - by apply elem_of_drop_in in H.
Qed.

Lemma insert_splice (index : Z) (item : positive) (st : state) :
  BiList.insert self index item st
  = splice self (clamp (length (items st)) index)
      (clamp (length (items st)) index) [item] st.
Proof.
  unfold BiList.insert, splice. rewrite Nat.sub_diag. done.
Qed.

Lemma set_list_splice (l : list positive) (st : state) :
  set_list__ self l st = splice self 0 (length (items st)) l st.
Proof.
  unfold set_list__, splice. rewrite Nat.sub_0_r, drop_0, firstn_all.
  destruct (del_parents_effect (items st) st) as (Hi1 & _ & _).
  destruct (set_parents_effect l (del_parents (items st) st)) as (Hi2 & _).
  unfold set_items. f_equal. rewrite Hi2, Hi1, drop_all, app_nil_r. done.
Qed.

End BiListFacts.





(* ================================================================== *)
(** * Properties of the generators and composite structures *)
(* ================================================================== *)

Lemma sends_after_exit {G V Y : Type} (gen_send : V -> G -> option (Y * G))
    (self : Generator.BaseGenerator G) (values : list V) :
  Generator.exit self = true ->
  Generator.sends gen_send values self
  = (replicate (length values)
       (if Generator.exit_allowed self then Generator.ReturnedNOTHING
        else Generator.RaisedAPIMisused),
     self).
Proof.
  intros Hexit. induction values as [|v values IH]; [done|].
  cbn [Generator.sends length replicate]. unfold Generator.send at 1.
  rewrite Hexit.
  destruct (Generator.exit_allowed self) eqn:Hallowed; simpl; by rewrite IH.
Qed.

(** X16: when the wrapped generator is exhausted, the call of the
    [BaseGenerator] that meets the end returns None and marks the exit;
    every later call returns NOTHING, or raises [APIMisused] when
    [exit_allowed] is off, and the wrapped generator is not resumed
    again. *)
Theorem BaseGenerator_exhausted {G V Y : Type}
    (gen_send : V -> G -> option (Y * G))
    (self : Generator.BaseGenerator G) (value : V) (values : list V) :
  Generator.exit self = false ->
  gen_send value (Generator.gen self) = None ->
  Generator.sends gen_send (value :: values) self
  = (Generator.ReturnedNone
       :: replicate (length values)
            (if Generator.exit_allowed self then Generator.ReturnedNOTHING
             else Generator.RaisedAPIMisused),
     {| Generator.gen := Generator.gen self;
        Generator.exit_allowed := Generator.exit_allowed self;
        Generator.exit := true |}).
Proof.
  intros Hexit Hstop. cbn [Generator.sends]. unfold Generator.send at 1.
  rewrite Hexit, Hstop. cbn [andb].
  by rewrite sends_after_exit.
Qed.

Lemma BaseGenerator_exhausted_witness :
  let countdown (_ : unit) (g : nat) :=
    match g with O => None | S g' => Some (g, g') end in
  Generator.sends countdown [(); (); ()]
    {| Generator.gen := 0%nat; Generator.exit_allowed := true;
       Generator.exit := false |}
  = ([Generator.ReturnedNone; Generator.ReturnedNOTHING;
      Generator.ReturnedNOTHING],
     {| Generator.gen := 0%nat; Generator.exit_allowed := true;
        Generator.exit := true |}).
Proof.
  intros countdown.
  exact (BaseGenerator_exhausted countdown
           {| Generator.gen := 0%nat; Generator.exit_allowed := true;
              Generator.exit := false |} () [(); ()] eq_refl eq_refl).
Defined.

Section CompositeFacts.
Import Composite.
Local Open Scope nat_scope.
Context {L St : Type} (func : tree L -> St -> St).

(** The nodes that a queue still has to visit, in the order of their
    visits, and a bound on the rounds that takes. *)
Local Abbreviation pending :=
  (flat_map (fun entry : tree L * option (list (tree L)) =>
               match entry.2 with
               | None => preorder entry.1
               | Some rest => flat_map preorder rest
               end)).
Local Abbreviation weight :=
  (fun q : list (tree L * option (list (tree L))) =>
     list_sum (map (fun entry : tree L * option (list (tree L)) =>
                      match entry.2 with
                      | None => rounds entry.1
                      | Some rest =>
                          1 + list_sum (map (fun c => S (rounds c)) rest)
                      end) q)).

Lemma dft_loop_spec (fuel : nat) :
  forall q st, weight q < fuel ->
    dft_loop func fuel q st
    = Some (foldl (fun st t => func t st) st (pending q)).
Proof.
  induction fuel as [|fuel IH]; intros q st Hw; [lia|].
  destruct q as [|[searcher iterator] q]; [done|].
  cbn [dft_loop]. destruct iterator as [[|child rest]|].
  - rewrite IH by (simpl in *; lia). reflexivity.
  - rewrite IH by (simpl in *; lia). f_equal.
    cbn [flat_map fst snd]. by rewrite <- !app_assoc.
  - destruct searcher as [x [|child rest]]; cbn [composite_iterable__].
    + rewrite IH by (simpl in *; lia). reflexivity.
    + rewrite IH by (simpl in *; lia).
      f_equal. cbn [flat_map fst snd preorder]. cbn [app foldl].
      by rewrite <- !app_assoc.
Qed.

End CompositeFacts.

(** X17: [CompositeDFT] ends, and it has called [__func] on every node of
    the structure once, on a parent before its children and on the children
    in the order in which [composite_iterable__] lists them. *)
Theorem CompositeDFT_preorder {L St : Type}
    (func : Composite.tree L -> St -> St) (item : Composite.tree L) (st : St)
    (fuel : nat) :
  (Composite.rounds item < fuel)%nat ->
  Composite.CompositeDFT func fuel item st
  = Some (foldl (fun st t => func t st) st (Composite.preorder item)).
Proof.
  intros Hfuel. unfold Composite.CompositeDFT.
  rewrite dft_loop_spec by (simpl; lia). simpl. by rewrite app_nil_r.
Qed.

Lemma CompositeDFT_preorder_witness :
  Composite.CompositeDFT (fun t seen => seen ++ [Composite.label t]) 20
    (Composite.Node 1%nat
       [Composite.Node 2%nat [Composite.Node 3%nat []];
        Composite.Node 4%nat []]) []
  = Some [1; 2; 3; 4]%nat.
Proof.
  exact (CompositeDFT_preorder (fun t seen => seen ++ [Composite.label t])
           (Composite.Node 1%nat
              [Composite.Node 2%nat [Composite.Node 3%nat []];
               Composite.Node 4%nat []]) [] 20%nat
           ltac:(simpl; lia)).
Defined.

Lemma search_fold {L : Type} (func : Composite.tree L -> bool)
    (l : list (Composite.tree L)) :
  forall results,
    foldl (fun results t => if func t then results ++ [t] else results)
          results l
    = results ++ filter (fun t => func t = true) l.
Proof.
  induction l as [|t l IH]; intros results; simpl; [by rewrite app_nil_r|].
  rewrite IH. destruct (func t) eqn:Hf.
  - rewrite filter_cons_True by done. by rewrite <- app_assoc.
  - rewrite filter_cons_False by (by rewrite Hf). done.
Qed.

(** X18: [CompositeDFS] returns the nodes of the structure on which
    [__func] is true, each once, in the order of the depth-first
    traversal. *)
Theorem CompositeDFS_filter {L : Type} (func : Composite.tree L -> bool)
    (item : Composite.tree L) (fuel : nat) :
  (Composite.rounds item < fuel)%nat ->
  Composite.CompositeDFS fuel item func
  = Some (filter (fun t => func t = true) (Composite.preorder item)).
Proof.
  intros Hfuel. unfold Composite.CompositeDFS, Composite.CompositeDFT.
  rewrite dft_loop_spec by (simpl; lia). simpl.
  by rewrite app_nil_r, search_fold.
Qed.

Lemma CompositeDFS_filter_witness :
  Composite.CompositeDFS 20
    (Composite.Node 1%nat
       [Composite.Node 2%nat [Composite.Node 3%nat []];
        Composite.Node 4%nat []])
    (fun t => Nat.even (Composite.label t))
  = Some [Composite.Node 2%nat [Composite.Node 3%nat []];
          Composite.Node 4%nat []].
Proof.
  exact (CompositeDFS_filter (fun t => Nat.even (Composite.label t))
           (Composite.Node 1%nat
              [Composite.Node 2%nat [Composite.Node 3%nat []];
               Composite.Node 4%nat []]) 20%nat ltac:(simpl; lia)).
Defined.

(* ================================================================== *)
(** * Properties of the observer inspection *)
(* ================================================================== *)

Section InspectFacts.
Import Observe.

Lemma length_append (p s : string) :
  String.length (p +:+ s) = (String.length p + String.length s)%nat.
Proof. induction p as [|c p IH]; simpl; [done|]. by rewrite IH. Qed.

(** The pattern strips the suffix from the names that end with it, and
    from no other name. *)
Lemma strip_suffix_spec (suffix name p : string) :
  strip_suffix suffix name = Some p <-> name = p +:+ suffix.
Proof.
  revert p. induction name as [|c rest IH]; intros p; simpl.
  - destruct (decide (EmptyString = suffix)) as [<-|Hne].
    + split; [by intros [= <-]|]. intros H. by destruct p.
    + split; [done|]. intros H. destruct p; simpl in H; [done|discriminate].
  - destruct (decide (String c rest = suffix)) as [<-|Hne].
    + split; [by intros [= <-]|]. intros H. f_equal.
      apply (f_equal String.length) in H. rewrite length_append in H.
      destruct p; [done|simpl in H; lia].
    + split.
      * destruct (strip_suffix suffix rest) as [p'|] eqn:Hs; [|done].
        intros [= <-]. change (String c rest = String c (p' +:+ suffix)).
        f_equal. by apply (proj1 (IH p')).
      * intros H. destruct p as [|c' p']; [by destruct Hne|].
        change (String c rest = String c' (p' +:+ suffix)) in H.
        injection H as <- Hrest.
        apply (proj2 (IH p')) in Hrest. by rewrite Hrest.
Qed.

Lemma last_char_append (p s : string) :
  s <> EmptyString -> last_char (p +:+ s) = last_char s.
Proof.
  intros Hs. induction p as [|c p IH]; [done|].
  change (last_char (String c (p +:+ s)) = last_char s).
  destruct (p +:+ s) as [|c' r] eqn:Hps.
  - by destruct p, s.
  - by rewrite <- IH.
Qed.

(** On a name that does not end with a newline the pattern is the plain
    test for the suffix. *)
Lemma pattern_spec (name attr : string) :
  ends_with_newline name = false ->
  OBSERVE_FUNC_SUFFIX_PATTERN name = Some attr
  <-> name = attr +:+ OBSERVE_FUNC_SUFFIX.
Proof.
  intros Hnl. unfold OBSERVE_FUNC_SUFFIX_PATTERN.
  destruct (strip_suffix OBSERVE_FUNC_SUFFIX name) as [a|] eqn:Hs.
  - apply strip_suffix_spec in Hs. split.
    + by intros [= <-].
    + intros H. f_equal. apply strip_suffix_spec in H.
      apply strip_suffix_spec in Hs. congruence.
  - destruct (strip_suffix (OBSERVE_FUNC_SUFFIX +:+ newline) name) as [a|] eqn:Hs'.
    + apply strip_suffix_spec in Hs'. unfold ends_with_newline in Hnl.
      apply bool_decide_eq_false in Hnl. destruct Hnl.
      by rewrite Hs', last_char_append.
    + split; [done|]. intros H. apply strip_suffix_spec in H. congruence.
Qed.

Lemma pattern_before_newline (attr : string) :
  OBSERVE_FUNC_SUFFIX_PATTERN (attr +:+ OBSERVE_FUNC_SUFFIX +:+ newline)
  = Some (attr +:+ newline).
Proof.
  unfold OBSERVE_FUNC_SUFFIX_PATTERN.
  destruct (strip_suffix OBSERVE_FUNC_SUFFIX
              (attr +:+ OBSERVE_FUNC_SUFFIX +:+ newline)) as [a|] eqn:Hs.
  - apply strip_suffix_spec in Hs. apply (f_equal last_char) in Hs.
    by rewrite !last_char_append in Hs.
  - assert (Hs' : strip_suffix (OBSERVE_FUNC_SUFFIX +:+ newline)
                    (attr +:+ OBSERVE_FUNC_SUFFIX +:+ newline) = Some attr)
      by (by apply strip_suffix_spec).
    by rewrite Hs'.
Qed.

End InspectFacts.

(** X19: when no name that [dir(observer)] lists ends with a newline,
    [observe_inspect__] gives exactly the attribute names [a] for which the
    observer has an attribute [a_observe__] with a true [attr_observe__]
    flag, and for each of them the callback that [notify__] looks up
    exists, so notifying an attached observer does not fail on a missing
    callback.  A name [a_observe__] followed by a newline is matched by the
    pattern as well and is inspected as [a] followed by a newline. *)
Theorem observe_inspect_callbacks (dir : list (string * bool)) (name : string) :
  (Forall (fun entry => Observe.ends_with_newline entry.1 = false) dir ->
   (name ∈ Observe.AttrObserver_observe_inspect__ dir
    <-> (name +:+ "_observe__", true) ∈ dir)
   /\ (name ∈ Observe.AttrObserver_observe_inspect__ dir ->
       Observe.notify_callback dir name = Ok (name +:+ "_observe__")))
  /\ ((name +:+ "_observe__" +:+ Observe.newline, true) ∈ dir ->
      (name +:+ Observe.newline) ∈ Observe.AttrObserver_observe_inspect__ dir).
Proof.
  split.
  - intros Hdir. rewrite Forall_forall in Hdir.
    assert (Hiff : name ∈ Observe.AttrObserver_observe_inspect__ dir
                   <-> (name +:+ "_observe__", true) ∈ dir).
    { unfold Observe.AttrObserver_observe_inspect__.
      rewrite elem_of_list_to_set, list_elem_of_omap. split.
      - intros ([n flag] & Hin & Hf). simpl in Hf.
        destruct (Observe.OBSERVE_FUNC_SUFFIX_PATTERN n) as [a|] eqn:Hs; [|done].
        destruct flag; [|done]. injection Hf as ->.
        apply pattern_spec in Hs; [|by apply (Hdir _ Hin)].
        rewrite Hs in Hin. exact Hin.
      - intros Hin. exists (name +:+ "_observe__", true). split; [done|]. simpl.
        assert (Hs : Observe.OBSERVE_FUNC_SUFFIX_PATTERN (name +:+ "_observe__")
                     = Some name)
          by (by apply pattern_spec; [apply (Hdir _ Hin)|]).
        by rewrite Hs. }
    split; [done|]. intros Hin%Hiff. unfold Observe.notify_callback.
    rewrite bool_decide_eq_true_2; [done|].
    apply list_elem_of_fmap. by exists (name +:+ "_observe__", true).
  - intros Hin. unfold Observe.AttrObserver_observe_inspect__.
    rewrite elem_of_list_to_set, list_elem_of_omap.
    exists (name +:+ "_observe__" +:+ Observe.newline, true). split; [done|].
    cbn [fst snd].
    change (name +:+ "_observe__" +:+ Observe.newline)
      with (name +:+ Observe.OBSERVE_FUNC_SUFFIX +:+ Observe.newline).
    by rewrite (pattern_before_newline name).
Qed.

Lemma observe_inspect_callbacks_witness :
  Observe.notify_callback [("lr_observe__", true); ("epoch_observe__", false)] "lr"
  = Ok ("lr" +:+ "_observe__").
Proof.
  pose (dir := [("lr_observe__", true); ("epoch_observe__", false)]).
  assert (Hdir : Forall (fun entry => Observe.ends_with_newline entry.1 = false)
                   dir) by (by repeat constructor).
  apply (proj2 (proj1 (observe_inspect_callbacks dir "lr") Hdir)).
  apply (proj2 (proj1 (proj1 (observe_inspect_callbacks dir "lr") Hdir))).
  apply list_elem_of_here.
Defined.

(* ================================================================== *)
(** * Properties of the utilities *)
(* ================================================================== *)

Section UtilFacts.
Import Util.
Context {A : Type}.

Lemma take_one_nonnegative (l : list A) (i : Z) :
  0 <= i -> take_one l i = Ok (l !! Z.to_nat i).
Proof.
  intros Hi. unfold take_one, py_getitem.
  destruct (decide (i < Z.of_nat (length l))) as [Hlt|Hge].
  - cbv zeta. rewrite (decide_False (P := i < 0)) by lia.
    rewrite (decide_True (P := 0 <= i)) by lia.
    destruct (lookup_lt_is_Some_2 l (Z.to_nat i) ltac:(lia)) as [a Ha].
    by rewrite Ha.
  - symmetry. f_equal. apply lookup_ge_None. lia.
Qed.

Lemma take_all_nonnegative (l : list A) (indexes : list Z) :
  Forall (fun i => 0 <= i) indexes ->
  take_all l indexes = Ok ((fun i => l !! Z.to_nat i) <$> indexes).
Proof.
  induction 1 as [|i indexes Hi _ IH]; [done|].
  cbn [take_all]. rewrite take_one_nonnegative by done.
  cbn [mbind result_bind]. by rewrite IH.
Qed.

End UtilFacts.

(** X20: [list_take] with indexes that are not negative never raises: it
    gives the item at the index and NOTHING for an index beyond the end,
    for a single index and item by item for a sequence of indexes.  A
    negative index within the list counts from the end, and a negative
    index before the start of the list is not answered with NOTHING but
    raises [IndexError]. *)
Theorem list_take_bounds {A : Type} (l : list A) (i : Z) (indexes : list Z) :
  let len := Z.of_nat (length l) in
  (0 <= i ->
     Util.list_take (Util.Sequence l) (Util.IndexInt i)
     = Ok (match l !! Z.to_nat i with
           | Some a => Util.TakenItem a
           | None => Util.TakenNOTHING
           end))
  /\ (Forall (fun i => 0 <= i) indexes ->
      Util.list_take (Util.Sequence l) (Util.IndexSeq indexes)
      = Ok (Util.TakenTuple ((fun i => l !! Z.to_nat i) <$> indexes)))
  /\ (- len <= i < 0 ->
      exists a, l !! Z.to_nat (i + len) = Some a
                /\ Util.list_take (Util.Sequence l) (Util.IndexInt i)
                   = Ok (Util.TakenItem a))
  /\ (i < - len ->
      Util.list_take (Util.Sequence l) (Util.IndexInt i)
      = Raise (IndexError "list index out of range")).
Proof.
  intros len. split; [|split; [|split]].
  - intros Hi. unfold Util.list_take. by rewrite take_one_nonnegative.
  - intros Hall. unfold Util.list_take. by rewrite take_all_nonnegative.
  - intros Hi.
    destruct (lookup_lt_is_Some_2 l (Z.to_nat (i + len)) ltac:(lia)) as [a Ha].
    exists a. split; [done|].
    unfold Util.list_take, Util.take_one, Util.py_getitem. fold len. cbv zeta.
    rewrite (decide_True (P := i < len)) by lia.
    rewrite (decide_True (P := i < 0)) by lia.
    rewrite (decide_True (P := 0 <= i + len)) by lia. by rewrite Ha.
  - intros Hi. unfold Util.list_take, Util.take_one, Util.py_getitem. fold len.
    cbv zeta. rewrite (decide_True (P := i < len)) by lia.
    rewrite (decide_True (P := i < 0)) by lia.
    by rewrite (decide_False (P := 0 <= i + len)) by lia.
Qed.

Lemma list_take_bounds_witness :
  Util.list_take (Util.Sequence [10; 20; 30]) (Util.IndexInt (-4))
  = Raise (IndexError "list index out of range")
  /\ Util.list_take (Util.Sequence [10; 20; 30]) (Util.IndexSeq [1; 3])
     = Ok (Util.TakenTuple [Some 20; None]).
Proof.
  split.
  - apply (list_take_bounds [10; 20; 30] (-4) [1; 3]). simpl. lia.
  - apply (proj1 (proj2 (list_take_bounds [10; 20; 30] (-4) [1; 3]))).
    repeat constructor; lia.
Defined.

Section IterToolFacts.
Import Util.
Context {A : Type} (now : nat -> Z).

Lemma selected_extras (self : IterTool A) (progress time index total : bool) :
  items self = [progress; time; index; total] ->
  list_take (Sequence (func_set now self)) (IndexSeq (true_indexes (items self)))
  = Ok (TakenTuple
          (Some <$> extras_for now [progress; time; index; total]
                      (length (_iterable self)) (_index self))).
Proof. intros ->. by destruct progress, time, index, total. Qed.

Lemma next_all_spec (l : list A) (flags : bool * bool * bool * bool)
    (rest : list A) :
  let '(progress, time, index, total) := flags in
  forall (k fuel : nat), (length rest < fuel)%nat ->
    next_all now fuel
      {| _iterable := l; _iterator := Some rest; _index := k;
         items := [progress; time; index; total] |}
    = Ok (imap (fun j item =>
                  let extras := extras_for now [progress; time; index; total]
                                  (length l) (k + j) in
                  if decide (length extras = 0)%nat then Bare item
                  else With item extras) rest).
Proof.
  destruct flags as [[[progress time] index] total].
  induction rest as [|item rest IH]; intros k fuel Hfuel.
  - destruct fuel; [simpl in Hfuel; lia|done].
  - destruct fuel as [|fuel]; [simpl in Hfuel; lia|].
    cbn [next_all]. unfold IterTool_next. cbn [_iterator]. cbv zeta.
    rewrite (selected_extras _ progress time index total) by reflexivity.
    cbn [_iterable _index items].
    rewrite (IH (S k) fuel) by (simpl in Hfuel; lia).
    cbn [fmap result_fmap imap]. rewrite <- list_fmap_compose.
    replace (default ExtraNOTHING ∘ Some) with (@id extra) by done.
    rewrite list_fmap_id, Nat.add_0_r. f_equal. f_equal.
    apply imap_ext. intros j x _. cbv zeta. unfold compose.
    by replace (S k + j)%nat with (k + S j)%nat by lia.
Qed.

End IterToolFacts.

(** X21: iterating an [IterTool] over a list gives the items of the list
    in order, each alone when no flag is set and otherwise in a tuple with
    the extras that the flags ask for, in the order progress, time, index,
    total, where the index of an item is its position and the progress is
    the position with the length of the list. *)
Theorem IterTool_iterate {A : Type} (now : nat -> Z) (l : list A)
    (progress time index total : bool) :
  Util.iterate now (Util.IterTool_init l progress time index total)
  = Ok (imap (fun j item =>
                let extras :=
                  Util.extras_for now [progress; time; index; total]
                    (length l) j in
                if decide (length extras = 0)%nat then Util.Bare item
                else Util.With item extras) l).
Proof.
  unfold Util.iterate, Util.IterTool_init, Util.IterTool_iter. simpl.
  exact (next_all_spec now l (progress, time, index, total) l 0%nat
           (S (length l)) ltac:(lia)).
Qed.
